(** * Verification of the Avro binary decoder, the distributed tracing
      policy and the delete/recover polling method

    Shallow embedding of
    - [azure/storage/blob/_shared/avro/avro_io.py] (module [Avro]),
    - [azure/core/pipeline/policies/_distributed_tracing.py] (module [Tracing]),
    - the key vault delete/recover polling method exercised by
      [tests/test_polling_method_async.py] (module [Polling]).

    Python integers are unbounded, so they are [Z]; byte strings are
    [list byte]; the dictionaries of the tracing policy are
    [gmap string _], the insertion-ordered dictionaries that the decoder
    returns for maps and records are association lists. *)

From Stdlib Require Import ZArith List Lia Bool.
From Stdlib Require Import Strings.Byte Strings.String DecimalString.
From stdpp Require Import base list strings gmap.

(* ===================================================================== *)
(** * Avro: [BinaryDecoder] and [DatumReader]                             *)
(* ===================================================================== *)

Module Avro.
Local Open Scope Z_scope.

(** ** Exceptions and results *)

(** The exceptions the decoder raises, by class. *)
Inductive exn : Type :=
| AssertionError
| StopIteration
| AvroException
| SchemaResolutionException
| UnicodeDecodeError
| IndexError
| ValueError
| TypeError.

(** A call returns a value, raises, or (for the block loops only) exhausts
    the iteration budget handed to it. *)
Inductive outcome (A : Type) : Type :=
| Ok (a : A)
| Raise (e : exn)
| NoFuel.
Arguments Ok {A} a.
Arguments Raise {A} e.
Arguments NoFuel {A}.

(** ** The reader: an in-memory byte stream with [read], [seek], [tell]

    [BinaryDecoder] only asks its reader for [read(n)], [seek(p)] and
    [tell()].  The reader is modelled as [io.BytesIO]: a buffer and a
    position that is never negative and may lie past the end.  Counts
    and offsets are taken within the range of a signed 64-bit integer,
    as they are for a buffer that fits in memory; beyond it [io.BytesIO]
    raises [OverflowError]. *)
Record reader : Type := mkReader { buf : list byte; pos : Z }.

(** Decoder methods thread the reader. *)
Definition M (A : Type) : Type := reader -> outcome (A * reader).

Definition ret {A} (a : A) : M A := fun d => Ok (a, d).
Definition raise {A} (e : exn) : M A := fun _ => Raise e.
Definition bind {A B} (c : M A) (k : A -> M B) : M B :=
  fun d => match c d with
           | Ok (a, d') => k a d'
           | Raise e => Raise e
           | NoFuel => NoFuel
           end.

Notation "x <~ c ;; k" := (bind c (fun x => k))
  (at level 100, c at next level, right associativity).
Notation "c ;;; k" := (bind c (fun _ => k))
  (at level 100, right associativity).

(** [reader.read(n)] for [n >= 0]: at most [n] bytes from the position. *)
Definition reader_read (n : Z) : M (list byte) := fun d =>
  let input_bytes := take (Z.to_nat n) (drop (Z.to_nat (pos d)) (buf d)) in
  Ok (input_bytes, mkReader (buf d) (pos d + Z.of_nat (length input_bytes))).

Definition reader_tell : M Z := fun d => Ok (pos d, d).

(** [reader.seek(p)]: a negative target is a [ValueError]. *)
Definition reader_seek (p : Z) : M unit := fun d =>
  if p <? 0 then Raise ValueError else Ok (tt, mkReader (buf d) p).

(** ** [BinaryDecoder] *)

(** [BinaryDecoder.read] *)
Definition read (n : Z) : M (list byte) :=
  if n <? 0 then raise AssertionError
  else
    input_bytes <~ reader_read n ;;
    if (0 <? n) && (Z.of_nat (length input_bytes) =? 0) then raise StopIteration
    else if Z.of_nat (length input_bytes) =? n then ret input_bytes
    else raise AssertionError.

Definition byte_val (c : byte) : Z := Z.of_N (Byte.to_N c).

(** [ord] of a byte string: defined on length one only. *)
Definition ord (bs : list byte) : M Z :=
  match bs with
  | [c] => ret (byte_val c)
  | _ => raise TypeError
  end.

(** [BinaryDecoder.read_null] *)
Definition read_null : M unit := ret tt.

(** [BinaryDecoder.read_boolean] *)
Definition read_boolean : M bool :=
  bs <~ read 1 ;;
  b <~ ord bs ;;
  if b =? 1 then ret true
  else if b =? 0 then ret false
  else raise AvroException.

(** The [while (b & 0x80) != 0] loop of [read_long].  Every iteration
    reads one byte, so the length of the buffer bounds the iterations;
    [read_long] passes that bound as [budget] (see [read_long_total]). *)
Fixpoint read_long_loop (budget : nat) (b n shift : Z) : M Z :=
  if Z.land b 0x80 =? 0 then
    ret (Z.lxor (Z.shiftr n 1) (- Z.land n 1))
  else
    match budget with
    | O => fun _ => NoFuel
    | S budget' =>
        bs <~ read 1 ;;
        b' <~ ord bs ;;
        read_long_loop budget' b' (Z.lor n (Z.shiftl (Z.land b' 0x7F) shift)) (shift + 7)
    end.

(** [BinaryDecoder.read_long] *)
Definition read_long : M Z := fun d =>
  (bs <~ read 1 ;;
   b <~ ord bs ;;
   read_long_loop (length (buf d)) b (Z.land b 0x7F) 7) d.

(** [BinaryDecoder.read_int] *)
Definition read_int : M Z := read_long.

(** [BinaryDecoder.skip] *)
Definition skip (n : Z) : M unit :=
  p <~ reader_tell ;;
  reader_seek (p + n).

(** [BinaryDecoder.read_float], [read_double]: the little-endian IEEE-754
    payload, kept as its 4 (8) bytes. *)
Definition read_float : M (list byte) := read 4.
Definition read_double : M (list byte) := read 8.

(** [BinaryDecoder.read_bytes] *)
Definition read_bytes : M (list byte) :=
  nbytes <~ read_long ;;
  if nbytes <? 0 then raise AssertionError
  else read nbytes.

(** A Python [str] is represented by its UTF-8 encoding, so that
    [bytes.decode("utf-8")] is the identity on well-formed sequences and
    raises on the others.  [utf8_valid] is the well-formedness test of the
    strict codec (no overlong forms, no surrogates, nothing above
    U+10FFFF). *)
Definition in_range (lo hi : Z) (c : byte) : bool :=
  (lo <=? byte_val c) && (byte_val c <=? hi).

Fixpoint utf8_valid (bs : list byte) : bool :=
  match bs with
  | [] => true
  | b0 :: t0 =>
    if in_range 0x00 0x7F b0 then utf8_valid t0
    else match t0 with
    | [] => false
    | b1 :: t1 =>
      if in_range 0xC2 0xDF b0 then in_range 0x80 0xBF b1 && utf8_valid t1
      else match t1 with
      | [] => false
      | b2 :: t2 =>
        if in_range 0xE0 0xE0 b0 then
          in_range 0xA0 0xBF b1 && in_range 0x80 0xBF b2 && utf8_valid t2
        else if in_range 0xED 0xED b0 then
          in_range 0x80 0x9F b1 && in_range 0x80 0xBF b2 && utf8_valid t2
        else if in_range 0xE1 0xEF b0 then
          in_range 0x80 0xBF b1 && in_range 0x80 0xBF b2 && utf8_valid t2
        else match t2 with
        | [] => false
        | b3 :: t3 =>
          if in_range 0xF0 0xF0 b0 then
            in_range 0x90 0xBF b1 && in_range 0x80 0xBF b2
            && in_range 0x80 0xBF b3 && utf8_valid t3
          else if in_range 0xF1 0xF3 b0 then
            in_range 0x80 0xBF b1 && in_range 0x80 0xBF b2
            && in_range 0x80 0xBF b3 && utf8_valid t3
          else if in_range 0xF4 0xF4 b0 then
            in_range 0x80 0x8F b1 && in_range 0x80 0xBF b2
            && in_range 0x80 0xBF b3 && utf8_valid t3
          else false
        end
      end
    end
  end.

(** [BinaryDecoder.read_utf8] (the Python 3 branch) *)
Definition read_utf8 : M (list byte) :=
  input_bytes <~ read_bytes ;;
  if utf8_valid input_bytes then ret input_bytes
  else raise UnicodeDecodeError.

(** [BinaryDecoder.skip_null] *)
Definition skip_null : M unit := ret tt.

(** [BinaryDecoder.skip_boolean] *)
Definition skip_boolean : M unit := skip 1.

(** The loop of [skip_long]; [budget] as in [read_long_loop]. *)
Fixpoint skip_long_loop (budget : nat) (b : Z) : M unit :=
  if Z.land b 0x80 =? 0 then ret tt
  else
    match budget with
    | O => fun _ => NoFuel
    | S budget' =>
        bs <~ read 1 ;;
        b' <~ ord bs ;;
        skip_long_loop budget' b'
    end.

(** [BinaryDecoder.skip_long] *)
Definition skip_long : M unit := fun d =>
  (bs <~ read 1 ;;
   b <~ ord bs ;;
   skip_long_loop (length (buf d)) b) d.

(** [BinaryDecoder.skip_int] *)
Definition skip_int : M unit := skip_long.

(** [BinaryDecoder.skip_float], [skip_double] *)
Definition skip_float : M unit := skip 4.
Definition skip_double : M unit := skip 8.

(** [BinaryDecoder.skip_bytes] *)
Definition skip_bytes : M unit :=
  n <~ read_long ;;
  skip n.

(** [BinaryDecoder.skip_utf8] *)
Definition skip_utf8 : M unit := skip_bytes.

(** ** Schemas and decoded values

    The [schema] module is not part of the sources at hand; [DatumReader]
    uses of a schema only its [type] string and, by type, [size],
    [symbols], [items], [values], [schemas] and [fields] (each field with
    a [name] and a [type]).  [SUnion] stands for the types ["union"] and
    ["error_union"], [SRecord] for ["record"], ["error"] and ["request"],
    which the dispatch treats alike; [SOther] is any other type string. *)
Set Warnings "-register-all".

Inductive schema : Type :=
| SNull
| SBoolean
| SString
| SInt
| SLong
| SFloat
| SDouble
| SBytes
| SFixed (size : Z)
| SEnum (symbols : list string)
| SArray (items : schema)
| SMap (values : schema)
| SUnion (schemas : list schema)
| SRecord (fields : list (string * schema))
| SOther (type : string).

(** The generic representation of data: records and maps are [dict]s
    (insertion ordered), arrays are lists. *)
Inductive value : Type :=
| VNull
| VBoolean (b : bool)
| VString (s : list byte)
| VLong (n : Z)
| VFloat (payload : list byte)
| VDouble (payload : list byte)
| VBytes (bs : list byte)
| VSymbol (symbol : string)
| VArray (read_items : list value)
| VMap (read_items : list (list byte * value))
| VRecord (read_record : list (string * value)).

#[export] Instance byte_eq_dec : EqDecision byte := Byte.byte_eq_dec.

(** [d[k] = v] on an insertion-ordered [dict]. *)
Fixpoint dict_set {K V : Type} `{EqDecision K} (k : K) (v : V)
    (d : list (K * V)) : list (K * V) :=
  match d with
  | [] => [(k, v)]
  | (k', v') :: d' =>
      if decide (k = k') then (k', v) :: d' else (k', v') :: dict_set k v d'
  end.

Definition len {A} (l : list A) : Z := Z.of_nat (length l).

(** [l[i]] on a Python list: a negative index counts from the end, and
    an index outside [-len(l) .. len(l)-1] is an [IndexError]. *)
Definition getitem {A} (l : list A) (i : Z) : M A :=
  let j := if i <? 0 then i + len l else i in
  if j <? 0 then raise IndexError
  else match l !! Z.to_nat j with
       | Some x => ret x
       | None => raise IndexError
       end.

(** ** [DatumReader]

    [read_data] and [skip_data] call the per-type methods, which call
    [self.read_data] and [self.skip_data] back.  The per-type methods are
    written over the two callbacks; [read_data] and [skip_data] below tie
    the knot.  The [while block_count != 0] loops take an iteration
    budget [fuel]; the [for _ in range(block_count)] loops run
    [Z.to_nat block_count] times. *)
Section DatumReader.
Variable read_data : schema -> M value.
Variable skip_data : schema -> M unit.

(** [DatumReader.read_fixed] *)
Definition read_fixed (size : Z) : M value :=
  bs <~ read size ;; ret (VBytes bs).

(** [DatumReader.skip_fixed] *)
Definition skip_fixed (size : Z) : M unit := skip size.

(** [DatumReader.read_enum] *)
Definition read_enum (symbols : list string) : M value :=
  index_of_symbol <~ read_int ;;
  if index_of_symbol >=? len symbols then raise SchemaResolutionException
  else
    read_symbol <~ getitem symbols index_of_symbol ;;
    ret (VSymbol read_symbol).

(** [DatumReader.skip_enum] *)
Definition skip_enum : M unit := skip_int.

(** [for _ in range(count): read_items.append(self.read_data(items))] *)
Fixpoint read_array_items (items : schema) (count : nat)
    (read_items : list value) : M (list value) :=
  match count with
  | O => ret read_items
  | S count' =>
      v <~ read_data items ;;
      read_array_items items count' (read_items ++ [v])
  end.

(** The [while] loop of [read_array], entered with the block count
    that was just read. *)
Fixpoint read_array_blocks (fuel : nat) (items : schema) (block_count : Z)
    (read_items : list value) : M (list value) :=
  if block_count =? 0 then ret read_items
  else
    match fuel with
    | O => fun _ => NoFuel
    | S fuel' =>
        block_count <~ (if block_count <? 0
                        then (read_long ;;; ret (- block_count))
                        else ret block_count) ;;
        read_items <~ read_array_items items (Z.to_nat block_count) read_items ;;
        block_count <~ read_long ;;
        read_array_blocks fuel' items block_count read_items
    end.

(** [DatumReader.read_array] *)
Definition read_array (fuel : nat) (items : schema) : M value :=
  block_count <~ read_long ;;
  read_items <~ read_array_blocks fuel items block_count [] ;;
  ret (VArray read_items).

(** [for _ in range(count): self.skip_data(items)] *)
Fixpoint skip_array_items (items : schema) (count : nat) : M unit :=
  match count with
  | O => ret tt
  | S count' => skip_data items ;;; skip_array_items items count'
  end.

(** The [while] loop of [skip_array]. *)
Fixpoint skip_array_blocks (fuel : nat) (items : schema) (block_count : Z)
    : M unit :=
  if block_count =? 0 then ret tt
  else
    match fuel with
    | O => fun _ => NoFuel
    | S fuel' =>
        (if block_count <? 0
         then (block_size <~ read_long ;; skip block_size)
         else skip_array_items items (Z.to_nat block_count)) ;;;
        block_count <~ read_long ;;
        skip_array_blocks fuel' items block_count
    end.

(** [DatumReader.skip_array] *)
Definition skip_array (fuel : nat) (items : schema) : M unit :=
  block_count <~ read_long ;;
  skip_array_blocks fuel items block_count.

(** [for _ in range(count): key = decoder.read_utf8();
    read_items[key] = self.read_data(values)] *)
Fixpoint read_map_items (values : schema) (count : nat)
    (read_items : list (list byte * value)) : M (list (list byte * value)) :=
  match count with
  | O => ret read_items
  | S count' =>
      key <~ read_utf8 ;;
      v <~ read_data values ;;
      read_map_items values count' (dict_set key v read_items)
  end.

(** The [while] loop of [read_map]. *)
Fixpoint read_map_blocks (fuel : nat) (values : schema) (block_count : Z)
    (read_items : list (list byte * value)) : M (list (list byte * value)) :=
  if block_count =? 0 then ret read_items
  else
    match fuel with
    | O => fun _ => NoFuel
    | S fuel' =>
        block_count <~ (if block_count <? 0
                        then (read_long ;;; ret (- block_count))
                        else ret block_count) ;;
        read_items <~ read_map_items values (Z.to_nat block_count) read_items ;;
        block_count <~ read_long ;;
        read_map_blocks fuel' values block_count read_items
    end.

(** [DatumReader.read_map] *)
Definition read_map (fuel : nat) (values : schema) : M value :=
  block_count <~ read_long ;;
  read_items <~ read_map_blocks fuel values block_count [] ;;
  ret (VMap read_items).

(** [for _ in range(count): decoder.skip_utf8();
    self.skip_data(values)] *)
Fixpoint skip_map_items (values : schema) (count : nat) : M unit :=
  match count with
  | O => ret tt
  | S count' =>
      skip_utf8 ;;; skip_data values ;;; skip_map_items values count'
  end.

(** The [while] loop of [skip_map]. *)
Fixpoint skip_map_blocks (fuel : nat) (values : schema) (block_count : Z)
    : M unit :=
  if block_count =? 0 then ret tt
  else
    match fuel with
    | O => fun _ => NoFuel
    | S fuel' =>
        (if block_count <? 0
         then (block_size <~ read_long ;; skip block_size)
         else skip_map_items values (Z.to_nat block_count)) ;;;
        block_count <~ read_long ;;
        skip_map_blocks fuel' values block_count
    end.

(** [DatumReader.skip_map] *)
Definition skip_map (fuel : nat) (values : schema) : M unit :=
  block_count <~ read_long ;;
  skip_map_blocks fuel values block_count.

(** [DatumReader.read_union] *)
Definition read_union (schemas : list schema) : M value :=
  index_of_schema <~ read_long ;;
  if index_of_schema >=? len schemas then raise SchemaResolutionException
  else
    selected_writer_schema <~ getitem schemas index_of_schema ;;
    read_data selected_writer_schema.

(** [DatumReader.skip_union] *)
Definition skip_union (schemas : list schema) : M unit :=
  index_of_schema <~ read_long ;;
  if index_of_schema >=? len schemas then raise SchemaResolutionException
  else
    selected_writer_schema <~ getitem schemas index_of_schema ;;
    skip_data selected_writer_schema.

(** The [for field in writer_schema.fields] loop of [read_record]. *)
Fixpoint read_record_fields (fields : list (string * schema))
    (read_record : list (string * value)) : M (list (string * value)) :=
  match fields with
  | [] => ret read_record
  | (name, type) :: fields' =>
      field_val <~ read_data type ;;
      read_record_fields fields' (dict_set name field_val read_record)
  end.

(** [DatumReader.read_record] *)
Definition read_record (fields : list (string * schema)) : M value :=
  r <~ read_record_fields fields [] ;;
  ret (VRecord r).

(** [DatumReader.skip_record] *)
Fixpoint skip_record (fields : list (string * schema)) : M unit :=
  match fields with
  | [] => ret tt
  | (_, type) :: fields' => skip_data type ;;; skip_record fields'
  end.
End DatumReader.

(** [DatumReader.read_data]: dispatch on the type of the writer's schema.
    [fuel] bounds the nesting depth of the calls and is the budget handed
    to the block loops. *)
Fixpoint read_data (fuel : nat) (writer_schema : schema) : M value :=
  match fuel with
  | O => fun _ => NoFuel
  | S fuel' =>
      match writer_schema with
      | SNull => read_null ;;; ret VNull
      | SBoolean => b <~ read_boolean ;; ret (VBoolean b)
      | SString => s <~ read_utf8 ;; ret (VString s)
      | SInt => n <~ read_int ;; ret (VLong n)
      | SLong => n <~ read_long ;; ret (VLong n)
      | SFloat => x <~ read_float ;; ret (VFloat x)
      | SDouble => x <~ read_double ;; ret (VDouble x)
      | SBytes => bs <~ read_bytes ;; ret (VBytes bs)
      | SFixed size => read_fixed size
      | SEnum symbols => read_enum symbols
      | SArray items => read_array (read_data fuel') fuel' items
      | SMap values => read_map (read_data fuel') fuel' values
      | SUnion schemas => read_union (read_data fuel') schemas
      | SRecord fields => read_record (read_data fuel') fields
      | SOther _ => raise AvroException
      end
  end.

(** [DatumReader.skip_data] *)
Fixpoint skip_data (fuel : nat) (writer_schema : schema) : M unit :=
  match fuel with
  | O => fun _ => NoFuel
  | S fuel' =>
      match writer_schema with
      | SNull => skip_null
      | SBoolean => skip_boolean
      | SString => skip_utf8
      | SInt => skip_int
      | SLong => skip_long
      | SFloat => skip_float
      | SDouble => skip_double
      | SBytes => skip_bytes
      | SFixed size => skip_fixed size
      | SEnum _ => skip_enum
      | SArray items => skip_array (skip_data fuel') fuel' items
      | SMap values => skip_map (skip_data fuel') fuel' values
      | SUnion schemas => skip_union (skip_data fuel') schemas
      | SRecord fields => skip_record (skip_data fuel') fields
      | SOther _ => raise AvroException
      end
  end.

(** ** The wire format, stated independently of the decoder *)

(** The continuation bit of a byte. *)
Definition continuation (c : byte) : bool :=
  negb (Z.land (byte_val c) 0x80 =? 0).

(** A varint: bytes with the continuation bit, then one byte without. *)
Inductive varint : list byte -> Prop :=
| varint_last c : continuation c = false -> varint [c]
| varint_more c bs : continuation c = true -> varint bs -> varint (c :: bs).

(** The unsigned value of a varint: 7 bits per byte, low end first. *)
Fixpoint accumulate (shift : Z) (bs : list byte) : Z :=
  match bs with
  | [] => 0
  | c :: bs' =>
      Z.lor (Z.shiftl (Z.land (byte_val c) 0x7F) shift) (accumulate (shift + 7) bs')
  end.

(** The zig-zag mapping of the signed integers onto the naturals, and
    its inverse in the form the decoder computes it. *)
Definition zigzag (x : Z) : Z := if x <? 0 then - 2 * x - 1 else 2 * x.
Definition unzigzag (accum : Z) : Z :=
  Z.lxor (Z.shiftr accum 1) (- Z.land accum 1).

Definition varint_value (bs : list byte) : Z := unzigzag (accumulate 0 bs).

(** A length-prefixed byte string. *)
Definition bytes_encoding (e payload : list byte) : Prop :=
  exists v, varint v /\ varint_value v = len payload /\ e = v ++ payload.

(** [encoding s e]: the bytes [e] are a well-formed encoding of a value
    of schema [s].  [enc_items keyed s n e] is the concatenation of [n]
    items ([keyed]: of [n] key/value pairs); [enc_blocks keyed s e] is a
    series of blocks up to and including the block of count zero; a block
    of negative count carries its size in bytes. *)
Inductive encoding : schema -> list byte -> Prop :=
| enc_null : encoding SNull []
| enc_boolean c : byte_val c = 0 \/ byte_val c = 1 -> encoding SBoolean [c]
| enc_string e payload :
    bytes_encoding e payload -> utf8_valid payload = true -> encoding SString e
| enc_int v : varint v -> encoding SInt v
| enc_long v : varint v -> encoding SLong v
| enc_float e : length e = 4%nat -> encoding SFloat e
| enc_double e : length e = 8%nat -> encoding SDouble e
| enc_bytes e payload : bytes_encoding e payload -> encoding SBytes e
| enc_fixed size e : len e = size -> encoding (SFixed size) e
| enc_enum symbols v :
    varint v -> 0 <= varint_value v < len symbols -> encoding (SEnum symbols) v
| enc_array items e : enc_blocks false items e -> encoding (SArray items) e
| enc_map values e : enc_blocks true values e -> encoding (SMap values) e
| enc_union schemas v s e :
    varint v -> 0 <= varint_value v ->
    schemas !! Z.to_nat (varint_value v) = Some s ->
    encoding s e -> encoding (SUnion schemas) (v ++ e)
| enc_record fields e : enc_fields fields e -> encoding (SRecord fields) e
with enc_items : bool -> schema -> nat -> list byte -> Prop :=
| enc_items_O keyed s : enc_items keyed s O []
| enc_items_S s n e rest :
    encoding s e -> enc_items false s n rest ->
    enc_items false s (S n) (e ++ rest)
| enc_items_S_keyed s n k key e rest :
    bytes_encoding k key -> utf8_valid key = true ->
    encoding s e -> enc_items true s n rest ->
    enc_items true s (S n) (k ++ e ++ rest)
with enc_blocks : bool -> schema -> list byte -> Prop :=
| enc_blocks_end keyed s v :
    varint v -> varint_value v = 0 -> enc_blocks keyed s v
| enc_blocks_pos keyed s v its rest :
    varint v -> 0 < varint_value v ->
    enc_items keyed s (Z.to_nat (varint_value v)) its ->
    enc_blocks keyed s rest ->
    enc_blocks keyed s (v ++ its ++ rest)
| enc_blocks_neg keyed s v vsize its rest :
    varint v -> varint_value v < 0 ->
    varint vsize -> varint_value vsize = len its ->
    enc_items keyed s (Z.to_nat (- varint_value v)) its ->
    enc_blocks keyed s rest ->
    enc_blocks keyed s (v ++ vsize ++ its ++ rest)
with enc_fields : list (string * schema) -> list byte -> Prop :=
| enc_fields_nil : enc_fields [] []
| enc_fields_cons name s fields e rest :
    encoding s e -> enc_fields fields rest ->
    enc_fields ((name, s) :: fields) (e ++ rest).

Scheme encoding_mut := Minimality for encoding Sort Prop
  with enc_items_mut := Minimality for enc_items Sort Prop
  with enc_blocks_mut := Minimality for enc_blocks Sort Prop
  with enc_fields_mut := Minimality for enc_fields Sort Prop.
Combined Scheme encoding_mutind
  from encoding_mut, enc_items_mut, enc_blocks_mut, enc_fields_mut.

(** The reader positioned after [pre] in the stream [pre ++ e ++ post],
    and the same reader once [e] has been consumed. *)
Definition at_start (pre e post : list byte) : reader :=
  mkReader (pre ++ e ++ post) (len pre).
Definition at_end (pre e post : list byte) : reader :=
  mkReader (pre ++ e ++ post) (len pre + len e).

(** [consumes c e a]: wherever the bytes [e] stand in a stream, the call
    [c] started in front of them returns [a] and stops right after
    them. *)
Definition consumes {A} (c : M A) (e : list byte) (a : A) : Prop :=
  forall pre post, c (at_start pre e post) = Ok (a, at_end pre e post).

(** What reading and skipping do on each syntactic class of the wire
    format, for every large enough budget.  [read_ok] and friends are the
    invariants of the induction over [encoding]. *)
Definition read_skip_ok (s : schema) (e : list byte) : Prop :=
  exists fuel0 v, forall fuel, (fuel0 <= fuel)%nat ->
    consumes (read_data fuel s) e v /\ consumes (skip_data fuel s) e tt.

Definition items_ok (keyed : bool) (s : schema) (n : nat) (e : list byte)
    : Prop :=
  exists fuel0,
    (if keyed
     then exists g, forall fuel acc, (fuel0 <= fuel)%nat ->
            consumes (read_map_items (read_data fuel) s n acc) e (g acc)
     else exists g, forall fuel acc, (fuel0 <= fuel)%nat ->
            consumes (read_array_items (read_data fuel) s n acc) e (g acc))
    /\ forall fuel, (fuel0 <= fuel)%nat ->
         consumes ((if keyed then skip_map_items else skip_array_items)
                     (skip_data fuel) s n) e tt.

Definition blocks_ok (keyed : bool) (s : schema) (e : list byte) : Prop :=
  exists fuel0,
    (if keyed
     then exists g, forall fuel budget acc,
            (fuel0 <= fuel)%nat -> (fuel0 <= budget)%nat ->
            consumes (block_count <~ read_long ;;
                      read_map_blocks (read_data fuel) budget s block_count acc)
                     e (g acc)
     else exists g, forall fuel budget acc,
            (fuel0 <= fuel)%nat -> (fuel0 <= budget)%nat ->
            consumes (block_count <~ read_long ;;
                      read_array_blocks (read_data fuel) budget s block_count acc)
                     e (g acc))
    /\ forall fuel budget, (fuel0 <= fuel)%nat -> (fuel0 <= budget)%nat ->
         consumes (block_count <~ read_long ;;
                   (if keyed then skip_map_blocks else skip_array_blocks)
                     (skip_data fuel) budget s block_count)
                  e tt.

Definition fields_ok (fields : list (string * schema)) (e : list byte) : Prop :=
  exists fuel0 g, forall fuel, (fuel0 <= fuel)%nat ->
    (forall acc, consumes (read_record_fields (read_data fuel) fields acc) e (g acc))
    /\ consumes (skip_record (skip_data fuel) fields) e tt.

(** ** Further observations on readers and results *)

(** The bytes from the position to the end of the buffer. *)
Definition unread (d : reader) : list byte :=
  drop (Z.to_nat (pos d)) (buf d).

(** A result with its value forgotten. *)
Definition forget {A} (r : outcome (A * reader)) : outcome (unit * reader) :=
  match r with
  | Ok (_, d) => Ok (tt, d)
  | Raise e => Raise e
  | NoFuel => NoFuel
  end.

(** The bytes that follow [c] in the varint that [c] starts within
    [c :: rest], if that varint ends before the bytes do. *)
Fixpoint varint_tail (c : byte) (rest : list byte) : option (list byte) :=
  if continuation c then
    match rest with
    | [] => None
    | c' :: rest' => (c' ::.) <$> varint_tail c' rest'
    end
  else Some [].

(** [forward c]: when [c] returns, the buffer is the one it started
    with and the position has not moved back. *)
Definition forward {A} (c : M A) : Prop :=
  forall d a d', c d = Ok (a, d') -> buf d' = buf d /\ pos d <= pos d'.

End Avro.

(* ===================================================================== *)
(** * Tracing: [DistributedTracingPolicy]                                 *)
(* ===================================================================== *)

Module Tracing.
Local Open Scope Z_scope.

(** ** Python objects, requests, spans *)

(** The class of an exception, as [sys.exc_info()[0]] shows it. *)
Record exc_type : Type := mkExcType { exc_module : string; exc_qualname : string }.

(** What a call that fails raises.  [is_Exception] says whether the
    object is an instance of [Exception], the class that the handler of
    [on_request] names: [KeyboardInterrupt], [SystemExit] and
    [asyncio.CancelledError] derive from [BaseException] only. *)
Record BaseException : Type := mkBaseException {
  exc_class : exc_type;
  is_Exception : bool
}.

(** The objects held by [request.context] and by attribute dictionaries
    ([Dict[str, Any]]): spans and tokens are references. *)
Inductive pyobj : Type :=
| PNone
| PBool (b : bool)
| PInt (n : Z)
| PStr (s : string)
| PSpan (ref : nat)
| PToken (ref : nat).

(** Truth value testing. *)
Definition truthy (o : pyobj) : bool :=
  match o with
  | PNone => false
  | PBool b => b
  | PInt n => negb (n =? 0)
  | PStr s => negb (String.eqb s "")
  | PSpan _ => true
  | PToken _ => true
  end.

(** [str] of an [int]. *)
Definition str (n : Z) : string := NilZero.string_of_int (Z.to_int n).

(** ** Headers

    The headers of a request and of a response are case-insensitive
    mappings, whose class is not among the sources.  A mapping is kept
    here as its entries under the folded names, as a case-insensitive
    dictionary does; [lower] stands for [str.lower], which folds a name
    (a field of the environment below). *)
Definition header_get (lower : string -> string) (h : gmap string string)
    (name : string) : option string :=
  h !! lower name.

Definition header_set (lower : string -> string) (name value : string)
    (h : gmap string string) : gmap string string :=
  <[lower name := value]> h.

(** [h.update(d)], where [items] are the items of the dictionary [d] in
    its order: [h[name] = value] for each. *)
Definition header_update (lower : string -> string)
    (items : list (string * string)) (h : gmap string string)
    : gmap string string :=
  foldl (fun h kv => header_set lower kv.1 kv.2 h) h items.

(** The case-insensitive mapping made from the given items. *)
Definition case_insensitive_dict (lower : string -> string)
    (items : list (string * string)) : gmap string string :=
  header_update lower items ∅.

Record http_request : Type := mkHttpRequest {
  method : string;
  url : string;
  headers : gmap string string
}.

Record http_response : Type := mkHttpResponse {
  status_code : Z;
  response_headers : gmap string string
}.

Inductive result (A : Type) : Type :=
| Returns (a : A)
| Raises (e : BaseException).
Arguments Returns {A} a.
Arguments Raises {A} e.

(** [urllib.parse.urlparse(url)], of which the policy reads [hostname]
    and [port]; reading [port] raises [ValueError] when the port of the
    URL is not a number or is out of range. *)
Record parsed_url : Type := mkParsedUrl {
  hostname : option string;
  port : result (option Z)
}.

(** [TracingOptions] *)
Record TracingOptions : Type := mkTracingOptions {
  enabled : option bool;
  attributes : option (gmap string pyobj)
}.

(** The entries of [request.context.options] that the policy pops. *)
Record options : Type := mkOptions {
  opt_tracing_options : option TracingOptions;
  opt_network_span_namer : option (http_request -> result string);
  opt_tracing_attributes : option (gmap string pyobj)
}.

(** [PipelineRequest]: the HTTP request and the context of the call,
    a dictionary that also carries the options. *)
Record pipeline_request : Type := mkPipelineRequest {
  request_http : http_request;
  context : gmap string pyobj;
  context_options : options
}.

(** A span as the policy can observe it.  [span_is_plugin] says whether
    the object has a [set_http_attributes] method (a span of the tracing
    plugin) or not (an OpenTelemetry span); [span_ended] counts the calls
    that end it ([finish], [end], [__exit__]). *)
Record span_state : Type := mkSpan {
  span_name : string;
  span_is_plugin : bool;
  span_attributes : gmap string pyobj;
  span_http : option (http_request * option http_response);
  span_ended : nat;
  span_exit : option (option exc_type)
}.

(** The tracer of the core tracing and the span type of the plugin: the
    calls [on_request] makes on them either return or raise. *)
Record tracer : Type := mkTracer {
  start_span : result unit;
  get_trace_context : result (list (string * string));
  suppress_auto_http_instrumentation : result pyobj
}.

Record span_impl : Type := mkSpanImpl {
  impl_new : result unit;
  impl_to_header : result (list (string * string))
}.

(** What lies outside the policy: the global settings, [get_tracer],
    [urlparse], which raises [ValueError] on a URL it cannot split, and
    [str.lower]. *)
Record environment : Type := mkEnvironment {
  settings_tracing_enabled : result bool;
  settings_tracing_implementation : result (option span_impl);
  get_tracer : result (option tracer);
  urlparse : string -> result parsed_url;
  str_lower : string -> string
}.

(** The policy object. *)
Record policy : Type := mkPolicy {
  _network_span_namer : http_request -> result string;
  _tracing_attributes : gmap string pyobj
}.

(** [_default_network_span_namer] *)
Definition _default_network_span_namer (r : http_request) : result string :=
  Returns (method r).

(** The state the policy acts on: the request in flight, the spans
    created so far (a reference is an index), the warnings logged and
    the suppression tokens detached. *)
Record world : Type := mkWorld {
  request : pipeline_request;
  spans : list span_state;
  warnings : list string;
  detached : list pyobj
}.

(** ** Constants of the class *)

Definition TRACING_CONTEXT : string := "TRACING_CONTEXT".
Definition _SUPPRESSION_TOKEN : string := "SUPPRESSION_TOKEN".
Definition _HTTP_RESEND_COUNT : string := "http.request.resend_count".
Definition _USER_AGENT_ORIGINAL : string := "user_agent.original".
Definition _HTTP_REQUEST_METHOD : string := "http.request.method".
Definition _URL_FULL : string := "url.full".
Definition _HTTP_RESPONSE_STATUS_CODE : string := "http.response.status_code".
Definition _SERVER_ADDRESS : string := "server.address".
Definition _SERVER_PORT : string := "server.port".
Definition _ERROR_TYPE : string := "error.type".
Definition _REQUEST_ID : string := "x-ms-client-request-id".
Definition _REQUEST_ID_ATTR : string := "az.client_request_id".
Definition _RESPONSE_ID : string := "x-ms-request-id".
Definition _RESPONSE_ID_ATTR : string := "az.service_request_id".

(** ** Methods run in a state monad with exceptions; the effects made
    before a raise stay. *)
Definition T (A : Type) : Type := world -> result A * world.

Definition ret {A} (a : A) : T A := fun w => (Returns a, w).
Definition bind {A B} (c : T A) (k : A -> T B) : T B :=
  fun w => match c w with
           | (Returns a, w') => k a w'
           | (Raises e, w') => (Raises e, w')
           end.

Notation "x <~ c ;; k" := (bind c (fun x => k))
  (at level 100, c at next level, right associativity).
Notation "c ;;; k" := (bind c (fun _ => k))
  (at level 100, right associativity).

(** A call into the environment. *)
Definition call {A} (r : result A) : T A := fun w => (r, w).

Definition get {A} (f : world -> A) : T A := fun w => (Returns (f w), w).
Definition modify (f : world -> world) : T unit := fun w => (Returns tt, f w).

Definition with_request (f : pipeline_request -> pipeline_request) (w : world)
    : world :=
  mkWorld (f (request w)) (spans w) (warnings w) (detached w).

Definition with_spans (f : list span_state -> list span_state) (w : world)
    : world :=
  mkWorld (request w) (f (spans w)) (warnings w) (detached w).

(** [_LOGGER.warning(msg)] *)
Definition warning (msg : string) : T unit :=
  modify (fun w => mkWorld (request w) (spans w) (warnings w ++ [msg]) (detached w)).

(** [request.context[key] = value] *)
Definition context_set (key : string) (value : pyobj) : T unit :=
  modify (with_request (fun r =>
    mkPipelineRequest (request_http r) (<[key := value]> (context r))
                      (context_options r))).

(** [request.http_request.headers.update(h)] *)
Definition headers_update (env : environment) (h : list (string * string))
    : T unit :=
  modify (with_request (fun r =>
    mkPipelineRequest
      (mkHttpRequest (method (request_http r)) (url (request_http r))
                     (header_update (str_lower env) h (headers (request_http r))))
      (context r) (context_options r))).

Definition set_options (o : options) : T unit :=
  modify (with_request (fun r =>
    mkPipelineRequest (request_http r) (context r) o)).

(** [ctxt.pop("tracing_options", {})] *)
Definition pop_tracing_options : T TracingOptions :=
  o <~ get (fun w => context_options (request w)) ;;
  set_options (mkOptions None (opt_network_span_namer o) (opt_tracing_attributes o)) ;;;
  ret (default (mkTracingOptions None None) (opt_tracing_options o)).

(** [ctxt.pop("network_span_namer", self._network_span_namer)] *)
Definition pop_network_span_namer (self : policy)
    : T (http_request -> result string) :=
  o <~ get (fun w => context_options (request w)) ;;
  set_options (mkOptions (opt_tracing_options o) None (opt_tracing_attributes o)) ;;;
  ret (default (_network_span_namer self) (opt_network_span_namer o)).

(** [ctxt.pop("tracing_attributes", self._tracing_attributes)] *)
Definition pop_tracing_attributes (self : policy) : T (gmap string pyobj) :=
  o <~ get (fun w => context_options (request w)) ;;
  set_options (mkOptions (opt_tracing_options o) (opt_network_span_namer o) None) ;;;
  ret (default (_tracing_attributes self) (opt_tracing_attributes o)).

(** ** Span objects *)

(** A new span object; its reference is returned. *)
Definition new_span (name : string) (is_plugin : bool)
    (attrs : gmap string pyobj) : T nat :=
  ref <~ get (fun w => length (spans w)) ;;
  modify (with_spans (fun l => l ++ [mkSpan name is_plugin attrs None 0 None])) ;;;
  ret ref.

Definition update_span (ref : nat) (f : span_state -> span_state) : T unit :=
  modify (with_spans (alter f ref)).

(** [span.add_attribute(key, value)], [span.set_attribute(key, value)] *)
Definition add_attribute (ref : nat) (key : string) (value : pyobj) : T unit :=
  update_span ref (fun s =>
    mkSpan (span_name s) (span_is_plugin s) (<[key := value]> (span_attributes s))
           (span_http s) (span_ended s) (span_exit s)).

(** [span.set_attributes(attrs)] *)
Definition set_attributes (ref : nat) (attrs : gmap string pyobj) : T unit :=
  update_span ref (fun s =>
    mkSpan (span_name s) (span_is_plugin s) (attrs ∪ span_attributes s)
           (span_http s) (span_ended s) (span_exit s)).

(** [span.set_http_attributes(request=..., response=...)] of a plugin
    span: what the plugin derives from the two is its own business. *)
Definition set_http_attributes (ref : nat) (r : http_request)
    (response : option http_response) : T unit :=
  update_span ref (fun s =>
    mkSpan (span_name s) (span_is_plugin s) (span_attributes s)
           (Some (r, response)) (span_ended s) (span_exit s)).

(** [span.finish()] and [span.end()] *)
Definition finish (ref : nat) : T unit :=
  update_span ref (fun s =>
    mkSpan (span_name s) (span_is_plugin s) (span_attributes s)
           (span_http s) (S (span_ended s)) (span_exit s)).

(** [span.__exit__], called with the unpacked [exc_info], ends the span
    as well. *)
Definition span_exit_with (ref : nat) (exc_info : option exc_type) : T unit :=
  update_span ref (fun s =>
    mkSpan (span_name s) (span_is_plugin s) (span_attributes s)
           (span_http s) (S (span_ended s)) (Some exc_info)).

(** [for key, value in attrs.items(): span.add_attribute(key, value)] *)
Definition add_attributes (ref : nat) (attrs : gmap string pyobj) : T unit :=
  foldr (fun kv rest => add_attribute ref kv.1 kv.2 ;;; rest) (ret tt)
        (map_to_list attrs).

(** ** [DistributedTracingPolicy] *)

(** The plugin branch of [on_request]. *)
Definition start_plugin_span (env : environment) (impl : span_impl)
    (span_name : string) (span_attributes : gmap string pyobj) : T unit :=
  call (impl_new impl) ;;;
  span <~ new_span span_name true ∅ ;;
  add_attributes span span_attributes ;;;
  h <~ call (impl_to_header impl) ;;
  headers_update env h ;;;
  context_set TRACING_CONTEXT (PSpan span).

(** The core tracing branch of [on_request]. *)
Definition start_core_span (env : environment) (span_name : string)
    (span_attributes : gmap string pyobj) : T unit :=
  tracer <~ call (get_tracer env) ;;
  match tracer with
  | None =>
      warning ("Tracing is enabled, but not able to get an OpenTelemetry tracer. "
               ++ "Please ensure that `opentelemetry-api` is installed.")
  | Some tracer =>
      call (start_span tracer) ;;;
      otel_span <~ new_span span_name false span_attributes ;;
      trace_context_headers <~ call (get_trace_context tracer) ;;
      headers_update env trace_context_headers ;;;
      context_set TRACING_CONTEXT (PSpan otel_span) ;;;
      token <~ call (suppress_auto_http_instrumentation tracer) ;;
      context_set _SUPPRESSION_TOKEN token
  end.

(** The body of the [try] of [on_request]. *)
Definition on_request_body (env : environment) (self : policy) : T unit :=
  tracing_options <~ pop_tracing_options ;;
  tracing_enabled <~ call (settings_tracing_enabled env) ;;
  let user_enabled := enabled tracing_options in
  match user_enabled with
  | Some false => ret tt
  | _ =>
    if negb tracing_enabled && bool_decide (user_enabled = None) then ret tt
    else
      span_impl_type <~ call (settings_tracing_implementation env) ;;
      namer <~ pop_network_span_namer self ;;
      tracing_attributes <~ pop_tracing_attributes self ;;
      http <~ get (fun w => request_http (request w)) ;;
      span_name <~ call (namer http) ;;
      let span_attributes :=
        default ∅ (attributes tracing_options) ∪ tracing_attributes in
      match span_impl_type with
      | Some impl => start_plugin_span env impl span_name span_attributes
      | None => start_core_span env span_name span_attributes
      end
  end.

(** [DistributedTracingPolicy.on_request]: [except Exception] logs a
    warning and returns; what is not an instance of [Exception] is not
    caught. *)
Definition on_request (env : environment) (self : policy) : T unit :=
  fun w =>
    match on_request_body env self w with
    | (Returns tt, w') => (Returns tt, w')
    | (Raises e, w') =>
        if is_Exception e then warning "Unable to start network span." w'
        else (Raises e, w')
    end.

(** The dictionary built by [_set_http_client_span_attributes], given
    the [hostname] of the parsed URL and what reading its [port]
    returned. *)
Definition http_client_span_attributes (lower : string -> string)
    (r : http_request) (parsed_hostname : option string)
    (parsed_port : option Z) (response : option http_response)
    : gmap string pyobj :=
  let attributes : gmap string pyobj :=
    <[_URL_FULL := PStr (url r)]> {[ _HTTP_REQUEST_METHOD := PStr (method r) ]} in
  let attributes :=
    match parsed_hostname with
    | Some h => if truthy (PStr h) then <[_SERVER_ADDRESS := PStr h]> attributes
                else attributes
    | None => attributes
    end in
  let attributes :=
    match parsed_port with
    | Some p => if truthy (PInt p) then <[_SERVER_PORT := PInt p]> attributes
                else attributes
    | None => attributes
    end in
  let attributes :=
    match header_get lower (headers r) "User-Agent" with
    | Some user_agent =>
        if truthy (PStr user_agent)
        then <[_USER_AGENT_ORIGINAL := PStr user_agent]> attributes
        else attributes
    | None => attributes
    end in
  match response with
  | Some response =>
      if truthy (PInt (status_code response)) then
        let attributes :=
          <[_HTTP_RESPONSE_STATUS_CODE := PInt (status_code response)]> attributes in
        if status_code response >=? 400
        then <[_ERROR_TYPE := PStr (str (status_code response))]> attributes
        else attributes
      else attributes
  | None => attributes
  end.

(** [DistributedTracingPolicy._set_http_client_span_attributes]:
    [urlparse] and the read of [port] come before [span.set_attributes],
    so when one of them raises the span gets no attribute. *)
Definition _set_http_client_span_attributes (env : environment) (span : nat)
    (r : http_request) (response : option http_response) : T unit :=
  parsed_url <~ call (urlparse env (url r)) ;;
  parsed_port <~ call (port parsed_url) ;;
  set_attributes span
    (http_client_span_attributes (str_lower env) r (hostname parsed_url)
                                 parsed_port response).

(** The [attributes] dictionary of [end_span]. *)
Definition end_span_attributes (lower : string -> string)
    (ctx : gmap string pyobj) (r : http_request)
    (response : option http_response) : gmap string pyobj :=
  let attributes : gmap string pyobj := ∅ in
  let attributes :=
    match ctx !! "retry_count" with
    | Some retry_count =>
        if truthy retry_count then <[_HTTP_RESEND_COUNT := retry_count]> attributes
        else attributes
    | None => attributes
    end in
  let attributes :=
    match header_get lower (headers r) _REQUEST_ID with
    | Some id => if truthy (PStr id) then <[_REQUEST_ID_ATTR := PStr id]> attributes
                 else attributes
    | None => attributes
    end in
  match response with
  | Some response =>
      match header_get lower (response_headers response) _RESPONSE_ID with
      | Some id => <[_RESPONSE_ID_ATTR := PStr id]> attributes
      | None => attributes
      end
  | None => attributes
  end.

(** The [error.type] of an exception class. *)
Definition error_type (exception_type : exc_type) : string :=
  let module :=
    if String.eqb (exc_module exception_type) "builtins" then ""
    else exc_module exception_type in
  if truthy (PStr module) then module ++ "." ++ exc_qualname exception_type
  else exc_qualname exception_type.

Definition AttributeError : BaseException :=
  mkBaseException (mkExcType "builtins" "AttributeError") true.

(** [DistributedTracingPolicy.end_span].  [exc_info] is [None] or the
    triple of [sys.exc_info()], of which the class matters here; the
    triple may be [(None, None, None)]. *)
Definition end_span (env : environment) (response : option http_response)
    (exc_info : option (option exc_type)) : T unit :=
  ctx <~ get (fun w => context (request w)) ;;
  match ctx !! TRACING_CONTEXT with
  | None => ret tt
  | Some span =>
    if negb (truthy span) then ret tt
    else
      match span with
      | PSpan span =>
          http <~ get (fun w => request_http (request w)) ;;
          let attributes :=
            end_span_attributes (str_lower env) ctx http response in
          is_plugin <~ get (fun w => default false (span_is_plugin <$> spans w !! span)) ;;
          (if is_plugin : bool then
             set_http_attributes span http response ;;;
             add_attributes span attributes ;;;
             match exc_info with
             | Some exc_info => span_exit_with span exc_info
             | None => finish span
             end
           else
             _set_http_client_span_attributes env span http response ;;;
             set_attributes span attributes ;;;
             match exc_info with
             | Some exc_info =>
                 match exc_info with
                 | Some exception_type =>
                     add_attribute span _ERROR_TYPE (PStr (error_type exception_type))
                 | None => ret tt
                 end ;;;
                 span_exit_with span exc_info
             | None => finish span
             end) ;;;
          match ctx !! _SUPPRESSION_TOKEN with
          | Some suppression_token =>
              if truthy suppression_token then
                tracer <~ call (get_tracer env) ;;
                match tracer with
                | Some _ =>
                    modify (fun w => mkWorld (request w) (spans w) (warnings w)
                                             (detached w ++ [suppression_token]))
                | None => ret tt
                end
              else ret tt
          | None => ret tt
          end
      | _ => call (Raises AttributeError)
      end
  end.

(** [DistributedTracingPolicy.on_response] *)
Definition on_response (env : environment) (response : http_response) : T unit :=
  end_span env (Some response) None.

(** [DistributedTracingPolicy.on_exception]: [sys.exc_info()] is the
    exception being handled, if any. *)
Definition on_exception (env : environment) (exc_info : option exc_type)
    : T unit :=
  end_span env None (Some exc_info).

(** ** Observations used in the statements *)

(** The span the policy holds for the request, if any. *)
Definition span_of_request (w : world) : option nat :=
  match context (request w) !! TRACING_CONTEXT with
  | Some (PSpan ref) => Some ref
  | _ => None
  end.

(** How many times a span was ended. *)
Definition times_ended (w : world) (ref : nat) : option nat :=
  span_ended <$> spans w !! ref.

(** The method and URL of the request in flight. *)
Definition request_line (w : world) : string * string :=
  (method (request_http (request w)), url (request_http (request w))).

(** [triple E P c Q]: started in a state of [P], [c] returns [a] in a
    state of [Q a] or raises [e] in a state of [E e]. *)
Definition triple {A} (E : BaseException -> world -> Prop) (P : world -> Prop)
    (c : T A) (Q : A -> world -> Prop) : Prop :=
  forall w, P w ->
    match c w with
    | (Returns a, w') => Q a w'
    | (Raises e, w') => E e w'
    end.

(** The value of an attribute of a span, and the exception info the
    span was exited with. *)
Definition span_attribute (w : world) (ref : nat) (key : string)
    : option pyobj :=
  s ← spans w !! ref; span_attributes s !! key.

Definition exited_with (w : world) (ref : nat) : option (option exc_type) :=
  s ← spans w !! ref; span_exit s.

(** The URL of the request can be taken apart: [urlparse] returns and
    so does the read of [port]. *)
Definition url_parsed (env : environment) (w : world)
    (parsed_hostname : option string) (parsed_port : option Z) : Prop :=
  exists parsed_url,
    urlparse env (url (request_http (request w))) = Returns parsed_url
    /\ hostname parsed_url = parsed_hostname
    /\ port parsed_url = Returns parsed_port.

(** The attributes of an OpenTelemetry span after [end_span], when the
    URL was parsed. *)
Definition ended_attributes (env : environment) (w : world)
    (parsed_hostname : option string) (parsed_port : option Z)
    (response : option http_response) (exc_info : option (option exc_type))
    (old : gmap string pyobj) : gmap string pyobj :=
  let attached :=
    end_span_attributes (str_lower env) (context (request w))
                        (request_http (request w)) response
    ∪ (http_client_span_attributes (str_lower env) (request_http (request w))
                                   parsed_hostname parsed_port response
       ∪ old) in
  match exc_info with
  | Some (Some exception_type) =>
      <[_ERROR_TYPE := PStr (error_type exception_type)]> attached
  | _ => attached
  end.

(** ** Values for the examples *)

(** [str.lower] on a name made of ASCII characters. *)
Definition ascii_lower_char (c : Ascii.ascii) : Ascii.ascii :=
  let n := Ascii.nat_of_ascii c in
  if ((65 <=? n) && (n <=? 90))%nat then Ascii.ascii_of_nat (n + 32) else c.

Fixpoint ascii_lower (s : string) : string :=
  match s with
  | EmptyString => EmptyString
  | String c s => String (ascii_lower_char c) (ascii_lower s)
  end.

Definition RuntimeError : BaseException :=
  mkBaseException (mkExcType "builtins" "RuntimeError") true.

Definition ValueError : BaseException :=
  mkBaseException (mkExcType "builtins" "ValueError") true.

Definition KeyboardInterrupt : BaseException :=
  mkBaseException (mkExcType "builtins" "KeyboardInterrupt") false.

(** [urlparse] on the URLs of the examples: the port 99999 is out of
    range, so reading it raises [ValueError]. *)
Definition sample_urlparse (u : string) : result parsed_url :=
  Returns (mkParsedUrl (Some "example.org")
             (if String.eqb u "https://example.org:99999/a"
              then Raises ValueError else Returns None)).

(** A GET with tracing switched on and the core tracing in use. *)
Definition sample_tracer : tracer :=
  mkTracer (Returns tt) (Returns [("traceparent", "00-1-2-01")])
           (Returns (PToken 0)).

Definition sample_environment : environment :=
  mkEnvironment (Returns true) (Returns None) (Returns (Some sample_tracer))
                sample_urlparse ascii_lower.

(** The tracer fails to hand out the trace context, after the span was
    started. *)
Definition broken_environment : environment :=
  mkEnvironment (Returns true) (Returns None)
    (Returns (Some (mkTracer (Returns tt) (Raises RuntimeError)
                             (Returns (PToken 0)))))
    sample_urlparse ascii_lower.

(** The tracer fails to suppress the automatic instrumentation, after the
    span was stored. *)
Definition half_started_environment : environment :=
  mkEnvironment (Returns true) (Returns None)
    (Returns (Some (mkTracer (Returns tt)
                             (Returns [("traceparent", "00-1-2-01")])
                             (Raises RuntimeError))))
    sample_urlparse ascii_lower.

(** The call is interrupted from the keyboard while the tracer is
    fetched. *)
Definition interrupted_environment : environment :=
  mkEnvironment (Returns true) (Returns None) (Raises KeyboardInterrupt)
                sample_urlparse ascii_lower.

Definition sample_policy : policy := mkPolicy _default_network_span_namer ∅.

Definition sample_world : world :=
  mkWorld (mkPipelineRequest (mkHttpRequest "GET" "https://example.org/a" ∅)
                             ∅ (mkOptions None None None))
          [] [] [].

(** The same call to a URL whose port is out of range. *)
Definition bad_port_world : world :=
  mkWorld (mkPipelineRequest
             (mkHttpRequest "GET" "https://example.org:99999/a" ∅)
             ∅ (mkOptions None None None))
          [] [] [].

Definition not_found_response : http_response := mkHttpResponse 404 ∅.
Definition ok_response : http_response := mkHttpResponse 200 ∅.
Definition unavailable_response : http_response := mkHttpResponse 503 ∅.

(** The attributes of a span after [add_attributes]. *)
Definition add_all (kvs : list (string * pyobj)) (s : span_state) : span_state :=
  mkSpan (span_name s) (span_is_plugin s)
         (foldl (fun m kv => <[kv.1 := kv.2]> m) (span_attributes s) kvs)
         (span_http s) (span_ended s) (span_exit s).

(** ** What a call asks for *)

(** The tracing options of the call, the namer and the base attributes
    that [on_request] will use: an entry of the call's options when
    there is one, the policy's otherwise. *)
Definition call_tracing_options (w : world) : TracingOptions :=
  default (mkTracingOptions None None)
          (opt_tracing_options (context_options (request w))).

Definition call_namer (self : policy) (w : world)
    : http_request -> result string :=
  default (_network_span_namer self)
          (opt_network_span_namer (context_options (request w))).

Definition call_base_attributes (self : policy) (w : world)
    : gmap string pyobj :=
  default (_tracing_attributes self)
          (opt_tracing_attributes (context_options (request w))).

(** Whether the call is to be traced: not when the call says no, and
    when the call says nothing only if the global setting says yes. *)
Definition wants_tracing (tracing_enabled : bool) (w : world) : bool :=
  match enabled (call_tracing_options w) with
  | Some user_enabled => user_enabled
  | None => tracing_enabled
  end.

(** The request with the given entries of its options popped. *)
Definition with_options (o : options) (w : world) : world :=
  with_request (fun r => mkPipelineRequest (request_http r) (context r) o) w.

(** A call that switches tracing on for itself while it is off
    globally. *)
Definition quiet_environment : environment :=
  mkEnvironment (Returns false) (Returns None) (Returns (Some sample_tracer))
                sample_urlparse ascii_lower.

Definition opted_in_world : world :=
  with_options
    (mkOptions (Some (mkTracingOptions (Some true) (Some {[ "k" := PInt 1 ]})))
               None (Some {[ "k" := PInt 2; "base" := PInt 3 ]}))
    sample_world.

(** A call on its second retry that carries a client request id and
    holds an OpenTelemetry span with an attribute of the caller's; the
    response names the service's request id. *)
Definition resent_world : world :=
  mkWorld (mkPipelineRequest
             (mkHttpRequest "GET" "https://example.org/a"
                (case_insensitive_dict ascii_lower
                   [("X-Ms-Client-Request-Id", "client-1")]))
             {[ TRACING_CONTEXT := PSpan 0; "retry_count" := PInt 2 ]}
             (mkOptions None None None))
          [mkSpan "GET" false {[ "custom" := PInt 1 ]} None 0 None] [] [].

Definition service_response : http_response :=
  mkHttpResponse 200
    (case_insensitive_dict ascii_lower [("X-Ms-Request-Id", "service-1")]).

(** [stable I c]: the property [I] of the state survives [c], whether
    [c] returns or raises. *)
Definition stable {A} (I : world -> Prop) (c : T A) : Prop :=
  triple (fun _ => I) I c (fun _ => I).

(** The request keeps its method and URL, and the headers [h0] are
    still there, possibly with other values. *)
Definition request_kept (line : string * string) (h0 : gmap string string)
    (w : world) : Prop :=
  request_line w = line
  /\ forall key, is_Some (h0 !! key) ->
       is_Some (headers (request_http (request w)) !! key).

(** Every span among [spans0] is still there with the same count of
    ends. *)
Definition ends_kept (w0 w : world) : Prop :=
  forall ref n, times_ended w0 ref = Some n -> times_ended w ref = Some n.

(** A call that returns, or raises an instance of [Exception]. *)
Definition ordinary {A} (r : result A) : Prop :=
  match r with
  | Returns _ => True
  | Raises e => is_Exception e = true
  end.

(** Whatever the calls that [on_request] makes for this request raise is
    an instance of [Exception]: the settings, the namer, the span type of
    the plugin, [get_tracer] and the tracer. *)
Definition ordinary_failures (env : environment) (self : policy) (w : world)
    : Prop :=
  ordinary (settings_tracing_enabled env)
  /\ ordinary (settings_tracing_implementation env)
  /\ ordinary (call_namer self w (request_http (request w)))
  /\ ordinary (get_tracer env)
  /\ (forall impl,
        settings_tracing_implementation env = Returns (Some impl) ->
        ordinary (impl_new impl) /\ ordinary (impl_to_header impl))
  /\ (forall tr,
        get_tracer env = Returns (Some tr) ->
        ordinary (start_span tr) /\ ordinary (get_trace_context tr)
        /\ ordinary (suppress_auto_http_instrumentation tr)).

End Tracing.

(* ===================================================================== *)
(** * Polling: the delete/recover polling method                          *)
(* ===================================================================== *)

Module Polling.
Local Open Scope Z_scope.

(** What one invocation of the command does: it returns, raises
    [ResourceNotFoundError], or raises an error that the polling method
    lets through (the 418 of [test_propagates_unexpected_error]).  The
    403 of [test_final_resource], after which [run] returns, is left out
    of the model. *)
Inductive command_outcome : Type :=
| Returned
| RaisedResourceNotFound
| RaisedOther (error : string).

(** The polling method together with what the tests observe from outside.
    The command is a zero-argument callable; what it does depends at most
    on how often it was invoked before, so it is given as the outcome of
    its n-th invocation.  [invocations] counts the calls of the command,
    [sleeps] lists the intervals slept. *)
Record polling_method (R : Type) : Type := mkPolling {
  command : nat -> command_outcome;
  final_resource : R;
  is_finished : bool;
  interval : Z;
  invocations : nat;
  sleeps : list Z
}.
Arguments mkPolling {R}.
Arguments command {R}.
Arguments final_resource {R}.
Arguments is_finished {R}.
Arguments interval {R}.
Arguments invocations {R}.
Arguments sleeps {R}.

(** How a call of [run] ends. *)
Inductive run_result (R : Type) : Type :=
| Completed (pm : polling_method R)
| Propagated (error : string) (pm : polling_method R)
| StillPolling.
Arguments Completed {R} pm.
Arguments Propagated {R} error pm.
Arguments StillPolling {R}.

Section PollingMethod.
Context {R : Type}.

(** Modelled from the spec: the constructor of the delete/recover
    polling method ([_shared/_polling_async.py] is not among the
    sources): it takes the command, the final resource, the initial
    [finished] flag and the interval. *)
Definition init (cmd : nat -> command_outcome) (resource : R)
    (finished : bool) (interval : Z) : polling_method R :=
  mkPolling cmd resource finished interval 0 [].

(** Modelled from the spec: [finished()] returns the completion state
    without side effects. *)
Definition finished (pm : polling_method R) : bool := is_finished pm.

(** Modelled from the spec: [resource()] returns the current best-known
    final resource at any time. *)
Definition resource (pm : polling_method R) : R := final_resource pm.

(** Modelled from the spec: [run()].  If already finished, return at once
    without invoking the command or sleeping.  Otherwise invoke the
    command: a not-found error means keep polling (sleep the interval,
    then retry), any other exception propagates at once, and a return
    sets [finished].  [fuel] bounds the number of invocations; a command
    that keeps raising not-found makes [run] poll for ever
    ([StillPolling]). *)
Fixpoint run (fuel : nat) (pm : polling_method R) : run_result R :=
  if finished pm then Completed pm
  else
    match fuel with
    | O => StillPolling
    | S fuel' =>
        let invoked :=
          mkPolling (command pm) (final_resource pm) (is_finished pm)
                    (interval pm) (S (invocations pm)) (sleeps pm) in
        match command pm (invocations pm) with
        | Returned =>
            Completed (mkPolling (command pm) (final_resource pm) true
                                 (interval pm) (invocations invoked) (sleeps pm))
        | RaisedResourceNotFound =>
            run fuel' (mkPolling (command pm) (final_resource pm) (is_finished pm)
                                 (interval pm) (invocations invoked)
                                 (sleeps pm ++ [interval pm]))
        | RaisedOther error => Propagated error invoked
        end
    end.

(** [n] calls of [run] in a row, as long as they return. *)
Fixpoint run_times (n : nat) (fuel : nat) (pm : polling_method R)
    : run_result R :=
  match n with
  | O => Completed pm
  | S n' =>
      match run fuel pm with
      | Completed pm' => run_times n' fuel pm'
      | other => other
      end
  end.
End PollingMethod.

(** The command of [test_continues_polling_when_resource_not_found] and
    [test_run_idempotence]: not found [max_calls] times, then a return;
    an invocation after that trips the assertion of the test. *)
Definition test_command (max_calls : nat) (n : nat) : command_outcome :=
  if (n <? max_calls)%nat then RaisedResourceNotFound
  else if (n =? max_calls)%nat then Returned
  else RaisedOther "polling method shouldn't invoke the command after completion".

End Polling.


(* ===================================================================== *)
(** * Properties of the Avro decoder                                      *)
(* ===================================================================== *)

Section AvroPrimitives.
Import Avro.
Local Open Scope Z_scope.

(** *** Streams cut in three *)

Lemma at_start_app pre e1 e2 post :
  at_start pre (e1 ++ e2) post = at_start pre e1 (e2 ++ post).
Proof. unfold at_start. by rewrite <- (app_assoc e1). Qed.

Lemma at_end_start pre e1 e2 post :
  at_end pre e1 (e2 ++ post) = at_start (pre ++ e1) e2 post.
Proof.
  unfold at_end, at_start, len. rewrite length_app, Nat2Z.inj_add.
  by rewrite <- (app_assoc pre).
Qed.

Lemma at_end_app pre e1 e2 post :
  at_end (pre ++ e1) e2 post = at_end pre (e1 ++ e2) post.
Proof.
  unfold at_end, len. rewrite !length_app, !Nat2Z.inj_add.
  rewrite <- !app_assoc. f_equal. lia.
Qed.

Lemma at_end_nil pre post : at_end pre [] post = at_start pre [] post.
Proof. unfold at_end, at_start, len. simpl. f_equal. lia. Qed.

(** *** Sequencing *)

Lemma consumes_ret {A} (a : A) : consumes (ret a) [] a.
Proof. intros pre post. by rewrite at_end_nil. Qed.

Lemma consumes_bind {A B} (c : M A) (k : A -> M B) e1 e2 a b :
  consumes c e1 a -> consumes (k a) e2 b -> consumes (bind c k) (e1 ++ e2) b.
Proof.
  intros Hc Hk pre post. unfold bind.
  rewrite at_start_app, Hc, at_end_start, Hk. by rewrite at_end_app.
Qed.

Lemma consumes_bind_nil {A B} (c : M A) (k : A -> M B) e a b :
  consumes c e a -> consumes (k a) [] b -> consumes (bind c k) e b.
Proof.
  intros Hc Hk. rewrite <- (app_nil_r e). by eapply consumes_bind.
Qed.

Lemma consumes_map {A B} (c : M A) (f : A -> B) e a :
  consumes c e a -> consumes (bind c (fun x => ret (f x))) e (f a).
Proof. intros Hc. eapply consumes_bind_nil; [done | apply consumes_ret]. Qed.

(** *** [read] and [skip] *)

Lemma reader_read_consumes e : consumes (reader_read (len e)) e e.
Proof.
  intros pre post. unfold reader_read, at_start, at_end, len. cbn [buf pos].
  by rewrite !Nat2Z.id, drop_app_length, take_app_length.
Qed.

Lemma read_consumes e : consumes (read (len e)) e e.
Proof.
  intros pre post. unfold read.
  destruct (Z.ltb_spec (len e) 0) as [?|_]; [unfold len in *; lia|].
  unfold bind. rewrite reader_read_consumes. fold (len e).
  rewrite Z.eqb_refl.
  destruct (Z.ltb_spec 0 (len e)), (Z.eqb_spec (len e) 0); simpl; done || lia.
Qed.

Lemma read_one_consumes c : consumes (read 1) [c] [c].
Proof. apply (read_consumes [c]). Qed.

Lemma skip_consumes e : consumes (skip (len e)) e tt.
Proof.
  intros pre post. unfold skip, bind, reader_tell, reader_seek, at_start, at_end.
  simpl. destruct (Z.ltb_spec (len pre + len e) 0); [unfold len in *; lia | done].
Qed.

(** *** Varints *)

Lemma varint_inv_one c : varint [c] -> continuation c = false.
Proof. inversion 1 as [|? ? ? Hbs]; [done | inversion Hbs]. Qed.

Lemma varint_inv_cons c c' rest :
  varint (c :: c' :: rest) -> continuation c = true /\ varint (c' :: rest).
Proof. inversion 1; subst; done. Qed.

Lemma varint_app conts last :
  Forall (fun c => continuation c = true) conts -> continuation last = false ->
  varint (conts ++ [last]).
Proof.
  intros Hconts Hlast. induction Hconts; simpl.
  - by apply varint_last.
  - by apply varint_more.
Qed.

Lemma continuation_false c :
  continuation c = false -> (Z.land (byte_val c) 0x80 =? 0) = true.
Proof. unfold continuation. by destruct (_ =? _). Qed.

Lemma continuation_true c :
  continuation c = true -> (Z.land (byte_val c) 0x80 =? 0) = false.
Proof. unfold continuation. by destruct (_ =? _). Qed.

Lemma read_long_loop_consumes rest : forall c budget n shift,
  varint (c :: rest) -> (length rest <= budget)%nat ->
  consumes (read_long_loop budget (byte_val c) n shift) rest
           (unzigzag (Z.lor n (accumulate shift rest))).
Proof.
  induction rest as [|c' rest IH]; intros c budget n shift Hv Hlen.
  - apply varint_inv_one, continuation_false in Hv.
    destruct budget; simpl; rewrite Hv, Z.lor_0_r; apply consumes_ret.
  - apply varint_inv_cons in Hv as [Hc Hv]. apply continuation_true in Hc.
    destruct budget as [|budget]; [simpl in Hlen; lia|].
    simpl. rewrite Hc. change (c' :: rest) with ([c'] ++ rest).
    eapply consumes_bind; [apply read_one_consumes|].
    simpl. rewrite Z.lor_assoc. apply IH; [done | simpl in Hlen; lia].
Qed.

Lemma skip_long_loop_consumes rest : forall c budget,
  varint (c :: rest) -> (length rest <= budget)%nat ->
  consumes (skip_long_loop budget (byte_val c)) rest tt.
Proof.
  induction rest as [|c' rest IH]; intros c budget Hv Hlen.
  - apply varint_inv_one, continuation_false in Hv.
    destruct budget; simpl; rewrite Hv; apply consumes_ret.
  - apply varint_inv_cons in Hv as [Hc Hv]. apply continuation_true in Hc.
    destruct budget as [|budget]; [simpl in Hlen; lia|].
    simpl. rewrite Hc. change (c' :: rest) with ([c'] ++ rest).
    eapply consumes_bind; [apply read_one_consumes|].
    simpl. apply IH; [done | simpl in Hlen; lia].
Qed.

Lemma varint_nonempty v : varint v -> exists c rest, v = c :: rest.
Proof. destruct 1; eauto. Qed.

Lemma read_long_consumes v : varint v -> consumes read_long v (varint_value v).
Proof.
  intros Hv pre post. destruct (varint_nonempty v Hv) as (c & rest & ->).
  unfold read_long. cbn [buf at_start].
  change (c :: rest) with ([c] ++ rest).
  eapply consumes_bind; [apply read_one_consumes|].
  simpl ord. unfold varint_value. simpl accumulate. rewrite Z.shiftl_0_r.
  apply (read_long_loop_consumes rest c); [done|].
  rewrite !length_app. simpl. lia.
Qed.

Lemma skip_long_consumes v : varint v -> consumes skip_long v tt.
Proof.
  intros Hv pre post. destruct (varint_nonempty v Hv) as (c & rest & ->).
  unfold skip_long. cbn [buf at_start].
  change (c :: rest) with ([c] ++ rest).
  eapply consumes_bind; [apply read_one_consumes|].
  apply (skip_long_loop_consumes rest c); [done|].
  rewrite !length_app. simpl. lia.
Qed.

Lemma accumulate_nonneg bs : forall shift, 0 <= accumulate shift bs.
Proof.
  induction bs as [|c bs IH]; intros shift; simpl; [done|].
  apply Z.lor_nonneg; split; [|apply IH].
  apply Z.shiftl_nonneg, Z.land_nonneg. right. done.
Qed.

Lemma land_one a : Z.land a 1 = a `mod` 2.
Proof. exact (Z.land_ones a 1 ltac:(lia)). Qed.

Lemma shiftr_one a : Z.shiftr a 1 = a `div` 2.
Proof. exact (Z.shiftr_div_pow2 a 1 ltac:(lia)). Qed.

(** The decoder's formula inverts the zig-zag mapping. *)
Lemma unzigzag_zigzag x : unzigzag (zigzag x) = x.
Proof.
  unfold unzigzag, zigzag. rewrite land_one, shiftr_one.
  destruct (Z.ltb_spec x 0).
  - replace (- 2 * x - 1) with (1 + (- x - 1) * 2) by lia.
    rewrite Z.div_add, Z_mod_plus_full by lia.
    change (1 `div` 2) with 0. change (1 `mod` 2) with 1.
    rewrite Z.add_0_l. change (- (1)) with (-1).
    rewrite Z.lxor_m1_r. unfold Z.lnot. lia.
  - rewrite (Z.mul_comm 2), Z.div_mul, Z_mod_mult by lia.
    apply Z.lxor_0_r.
Qed.

(** [read_long] never exhausts the budget it gives its loop: the loop
    reads a byte per iteration and the buffer is finite. *)
Lemma read_one_inv d bs d' :
  read 1 d = Ok (bs, d') ->
  0 <= pos d ->
  buf d' = buf d /\ pos d' = pos d + 1 /\ pos d < len (buf d) /\ length bs = 1%nat.
Proof.
  unfold read, bind, reader_read, ret, raise. simpl.
  set (bs0 := take _ _).
  destruct (Z.eqb_spec (Z.of_nat (length bs0)) 0) as [E0|E0]; [done|].
  destruct (Z.eqb_spec (Z.of_nat (length bs0)) 1) as [E1|E1]; [|done].
  intros [= <- <-] Hpos. cbn [buf pos]. rewrite E1.
  assert (length bs0 = 1%nat) as Hone by lia.
  split; [done|]. split; [done|]. split; [|done].
  subst bs0. rewrite length_take, length_drop in Hone. unfold len.
  clear E0 E1. change (Z.to_nat 1) with 1%nat in Hone.
  revert Hpos Hone. generalize (pos d) (length (buf d)). intros p n ? ?. lia.
Qed.

Lemma read_long_loop_total budget : forall b n shift d,
  0 <= pos d -> Z.max 0 (len (buf d) - pos d) < Z.of_nat budget ->
  read_long_loop budget b n shift d <> NoFuel.
Proof.
  induction budget as [|budget IH]; intros b n shift d Hpos Hrem.
  - simpl. destruct (_ =? _); [done|]. unfold len in *. lia.
  - simpl. destruct (_ =? _); [done|]. unfold bind at 1.
    destruct (read 1 d) as [[bs d']| |] eqn:Hread; [|done|].
    + destruct (read_one_inv _ _ _ Hread Hpos) as (Hbuf & Hp & Hlt & Hbs).
      destruct bs as [|c [|? ?]]; try done. simpl.
      apply IH; rewrite ?Hbuf, ?Hp; lia.
    + revert Hread. unfold read, bind, reader_read, ret, raise. simpl.
      by repeat destruct (_ =? _).
Qed.

Lemma read_long_total d : 0 <= pos d -> read_long d <> NoFuel.
Proof.
  intros Hpos. unfold read_long, bind at 1.
  destruct (read 1 d) as [[bs d']| |] eqn:Hread; [|done|].
  - destruct (read_one_inv _ _ _ Hread Hpos) as (Hbuf & Hp & Hlt & Hbs).
    destruct bs as [|c [|? ?]]; try done. simpl.
    apply read_long_loop_total; rewrite ?Hbuf, ?Hp; unfold len in *; lia.
  - revert Hread. unfold read, bind, reader_read, ret, raise. simpl.
    by repeat destruct (_ =? _).
Qed.

(** C1. For every stream whose next bytes are a well-formed varint
    (bytes [conts] with the 0x80 bit set, then one byte [last] without
    it), [read_long] consumes exactly those bytes, and with [accum] the
    unsigned value gathered 7 bits per byte from the low end it returns
    [(accum >> 1) XOR -(accum & 1)]; [read_int] returns the same with no
    width check. *)
Theorem read_long_decodes_varint (pre conts : list byte) (last : byte)
    (post : list byte) :
  Forall (fun c => continuation c = true) conts ->
  continuation last = false ->
  let stream := pre ++ (conts ++ [last]) ++ post in
  let accum := accumulate 0 (conts ++ [last]) in
  read_long (mkReader stream (len pre))
  = Ok (Z.lxor (Z.shiftr accum 1) (- Z.land accum 1),
        mkReader stream (len pre + len conts + 1))
  /\ read_int (mkReader stream (len pre)) = read_long (mkReader stream (len pre))
  /\ 0 <= accum.
Proof.
  intros Hconts Hlast stream accum. split; [|split].
  - pose proof (read_long_consumes _ (varint_app _ _ Hconts Hlast) pre post) as H.
    unfold at_start, at_end in H. fold stream in H. rewrite H.
    unfold varint_value, unzigzag. fold accum. do 3 f_equal.
    unfold len. rewrite length_app. simpl. lia.
  - done.
  - apply accumulate_nonneg.
Qed.

(** The two-byte varint [ac 02] is 300 unsigned, 150 after zig-zag. *)
Lemma read_long_decodes_varint_witness :
  read_long (mkReader [x00; xac; x02; xff] 1)
  = Ok (150, mkReader [x00; xac; x02; xff] 3).
Proof.
  exact (proj1 (read_long_decodes_varint [x00] [xac] x02 [xff]
                  ltac:(repeat constructor) eq_refl)).
Defined.

(** *** Length-prefixed data, booleans, fixed-width data *)

Lemma consumes_ext {A} (c c' : M A) e a :
  (forall d, c d = c' d) -> consumes c e a -> consumes c' e a.
Proof. intros Hext Hc pre post. by rewrite <- Hext. Qed.

Lemma bind_assoc {A B C} (c : M A) (f : A -> M B) (g : B -> M C) d :
  bind c (fun a => bind (f a) g) d = bind (bind c f) g d.
Proof. unfold bind. by destruct (c d) as [[a d']| |]. Qed.

Lemma read_bytes_consumes e payload :
  bytes_encoding e payload -> consumes read_bytes e payload.
Proof.
  intros (v & Hv & Hlen & ->). unfold read_bytes.
  eapply consumes_bind; [by apply read_long_consumes|].
  rewrite Hlen. destruct (Z.ltb_spec (len payload) 0); [unfold len in *; lia|].
  apply read_consumes.
Qed.

Lemma skip_bytes_consumes e payload :
  bytes_encoding e payload -> consumes skip_bytes e tt.
Proof.
  intros (v & Hv & Hlen & ->). unfold skip_bytes.
  eapply consumes_bind; [by apply read_long_consumes|].
  rewrite Hlen. apply skip_consumes.
Qed.

Lemma read_utf8_consumes e payload :
  bytes_encoding e payload -> utf8_valid payload = true ->
  consumes read_utf8 e payload.
Proof.
  intros He Hvalid. unfold read_utf8.
  eapply consumes_bind_nil; [by apply read_bytes_consumes|].
  rewrite Hvalid. apply consumes_ret.
Qed.

Lemma read_boolean_consumes c :
  byte_val c = 0 \/ byte_val c = 1 ->
  consumes read_boolean [c] (byte_val c =? 1).
Proof.
  intros Hc. unfold read_boolean.
  eapply consumes_bind_nil; [apply read_one_consumes|].
  simpl. destruct Hc as [-> | ->]; apply consumes_ret.
Qed.

Lemma getitem_in_range {A} (l : list A) (i : Z) (x : A) :
  0 <= i -> l !! Z.to_nat i = Some x -> getitem l i = ret x.
Proof.
  intros Hi Hx. unfold getitem.
  destruct (Z.ltb_spec i 0); [lia|].
  destruct (Z.ltb_spec i 0); [lia|]. by rewrite Hx.
Qed.

Lemma read_enum_consumes symbols v :
  varint v -> 0 <= varint_value v < len symbols ->
  exists symbol,
    symbols !! Z.to_nat (varint_value v) = Some symbol /\
    consumes (read_enum symbols) v (VSymbol symbol).
Proof.
  intros Hv [Hlo Hhi].
  destruct (lookup_lt_is_Some_2 symbols (Z.to_nat (varint_value v)))
    as [symbol Hsym]; [unfold len in Hhi; lia|].
  exists symbol. split; [done|]. unfold read_enum, read_int.
  eapply consumes_bind_nil; [by apply read_long_consumes|].
  destruct (Z.geb_spec (varint_value v) (len symbols)); [lia|].
  rewrite (getitem_in_range _ _ _ Hlo Hsym). apply consumes_ret.
Qed.

End AvroPrimitives.

Section AvroDatumReader.
Import Avro.
Local Open Scope Z_scope.

(** *** One turn of each block loop *)

Section BlockLoops.
Variable rd : schema -> M value.
Variable sk : schema -> M unit.

Lemma read_array_blocks_zero budget items acc :
  read_array_blocks rd budget items 0 acc = ret acc.
Proof. by destruct budget. Qed.

Lemma read_array_blocks_pos budget items c acc d :
  0 < c ->
  read_array_blocks rd (S budget) items c acc d
  = (l <~ read_array_items rd items (Z.to_nat c) acc ;;
     block_count <~ read_long ;;
     read_array_blocks rd budget items block_count l) d.
Proof.
  intros Hc. simpl.
  destruct (Z.eqb_spec c 0); [lia|]. destruct (Z.ltb_spec c 0); [lia|]. done.
Qed.

Lemma read_array_blocks_neg budget items c acc d :
  c < 0 ->
  read_array_blocks rd (S budget) items c acc d
  = (read_long ;;;
     l <~ read_array_items rd items (Z.to_nat (- c)) acc ;;
     block_count <~ read_long ;;
     read_array_blocks rd budget items block_count l) d.
Proof.
  intros Hc. simpl.
  destruct (Z.eqb_spec c 0); [lia|]. destruct (Z.ltb_spec c 0); [|lia].
  by rewrite <- bind_assoc.
Qed.

Lemma read_map_blocks_zero budget values acc :
  read_map_blocks rd budget values 0 acc = ret acc.
Proof. by destruct budget. Qed.

Lemma read_map_blocks_pos budget values c acc d :
  0 < c ->
  read_map_blocks rd (S budget) values c acc d
  = (l <~ read_map_items rd values (Z.to_nat c) acc ;;
     block_count <~ read_long ;;
     read_map_blocks rd budget values block_count l) d.
Proof.
  intros Hc. simpl.
  destruct (Z.eqb_spec c 0); [lia|]. destruct (Z.ltb_spec c 0); [lia|]. done.
Qed.

Lemma read_map_blocks_neg budget values c acc d :
  c < 0 ->
  read_map_blocks rd (S budget) values c acc d
  = (read_long ;;;
     l <~ read_map_items rd values (Z.to_nat (- c)) acc ;;
     block_count <~ read_long ;;
     read_map_blocks rd budget values block_count l) d.
Proof.
  intros Hc. simpl.
  destruct (Z.eqb_spec c 0); [lia|]. destruct (Z.ltb_spec c 0); [|lia].
  by rewrite <- bind_assoc.
Qed.

Lemma skip_array_blocks_zero budget items :
  skip_array_blocks sk budget items 0 = ret tt.
Proof. by destruct budget. Qed.

Lemma skip_array_blocks_pos budget items c d :
  0 < c ->
  skip_array_blocks sk (S budget) items c d
  = (skip_array_items sk items (Z.to_nat c) ;;;
     block_count <~ read_long ;;
     skip_array_blocks sk budget items block_count) d.
Proof.
  intros Hc. simpl.
  destruct (Z.eqb_spec c 0); [lia|]. destruct (Z.ltb_spec c 0); [lia|]. done.
Qed.

Lemma skip_array_blocks_neg budget items c d :
  c < 0 ->
  skip_array_blocks sk (S budget) items c d
  = (block_size <~ read_long ;;
     skip block_size ;;;
     block_count <~ read_long ;;
     skip_array_blocks sk budget items block_count) d.
Proof.
  intros Hc. simpl.
  destruct (Z.eqb_spec c 0); [lia|]. destruct (Z.ltb_spec c 0); [|lia].
  by rewrite <- bind_assoc.
Qed.

Lemma skip_map_blocks_zero budget values :
  skip_map_blocks sk budget values 0 = ret tt.
Proof. by destruct budget. Qed.

Lemma skip_map_blocks_pos budget values c d :
  0 < c ->
  skip_map_blocks sk (S budget) values c d
  = (skip_map_items sk values (Z.to_nat c) ;;;
     block_count <~ read_long ;;
     skip_map_blocks sk budget values block_count) d.
Proof.
  intros Hc. simpl.
  destruct (Z.eqb_spec c 0); [lia|]. destruct (Z.ltb_spec c 0); [lia|]. done.
Qed.

Lemma skip_map_blocks_neg budget values c d :
  c < 0 ->
  skip_map_blocks sk (S budget) values c d
  = (block_size <~ read_long ;;
     skip block_size ;;;
     block_count <~ read_long ;;
     skip_map_blocks sk budget values block_count) d.
Proof.
  intros Hc. simpl.
  destruct (Z.eqb_spec c 0); [lia|]. destruct (Z.ltb_spec c 0); [|lia].
  by rewrite <- bind_assoc.
Qed.
End BlockLoops.

(** *** Reading and skipping agree on every well-formed encoding *)

Ltac need_fuel fuel :=
  destruct fuel as [|fuel]; [lia|]; cbn [read_data skip_data].

Lemma leaf_ok s e v :
  (forall fuel, consumes (read_data (S fuel) s) e v) ->
  (forall fuel, consumes (skip_data (S fuel) s) e tt) ->
  read_skip_ok s e.
Proof.
  intros Hr Hs. exists 1%nat, v. intros fuel Hfuel.
  destruct fuel as [|fuel]; [lia|]. by split.
Qed.

Lemma read_width_consumes n e : len e = n -> consumes (read n) e e.
Proof. intros <-. apply read_consumes. Qed.

Lemma skip_width_consumes n e : len e = n -> consumes (skip n) e tt.
Proof. intros <-. apply skip_consumes. Qed.

Lemma null_ok : read_skip_ok SNull [].
Proof.
  apply (leaf_ok _ _ VNull); intros fuel; cbn [read_data skip_data].
  - exact (consumes_ret VNull).
  - exact (consumes_ret tt).
Qed.

Lemma boolean_ok c :
  byte_val c = 0 \/ byte_val c = 1 -> read_skip_ok SBoolean [c].
Proof.
  intros Hc.
  apply (leaf_ok _ _ (VBoolean (byte_val c =? 1))); intros fuel;
    cbn [read_data skip_data].
  - by apply (consumes_map read_boolean VBoolean), read_boolean_consumes.
  - by apply (skip_width_consumes 1 [c]).
Qed.

Lemma string_ok e payload :
  bytes_encoding e payload -> utf8_valid payload = true ->
  read_skip_ok SString e.
Proof.
  intros He Hvalid.
  apply (leaf_ok _ _ (VString payload)); intros fuel; cbn [read_data skip_data].
  - by apply (consumes_map read_utf8 VString), read_utf8_consumes.
  - by eapply skip_bytes_consumes.
Qed.

Lemma int_ok v : varint v -> read_skip_ok SInt v.
Proof.
  intros Hv.
  apply (leaf_ok _ _ (VLong (varint_value v))); intros fuel;
    cbn [read_data skip_data].
  - by apply (consumes_map read_int VLong), read_long_consumes.
  - by apply skip_long_consumes.
Qed.

Lemma long_ok v : varint v -> read_skip_ok SLong v.
Proof.
  intros Hv.
  apply (leaf_ok _ _ (VLong (varint_value v))); intros fuel;
    cbn [read_data skip_data].
  - by apply (consumes_map read_long VLong), read_long_consumes.
  - by apply skip_long_consumes.
Qed.

Lemma float_ok e : length e = 4%nat -> read_skip_ok SFloat e.
Proof.
  intros He. assert (len e = 4) by (unfold len; lia).
  apply (leaf_ok _ _ (VFloat e)); intros fuel; cbn [read_data skip_data].
  - by apply (consumes_map read_float VFloat), read_width_consumes.
  - by apply skip_width_consumes.
Qed.

Lemma double_ok e : length e = 8%nat -> read_skip_ok SDouble e.
Proof.
  intros He. assert (len e = 8) by (unfold len; lia).
  apply (leaf_ok _ _ (VDouble e)); intros fuel; cbn [read_data skip_data].
  - by apply (consumes_map read_double VDouble), read_width_consumes.
  - by apply skip_width_consumes.
Qed.

Lemma bytes_ok e payload : bytes_encoding e payload -> read_skip_ok SBytes e.
Proof.
  intros He.
  apply (leaf_ok _ _ (VBytes payload)); intros fuel; cbn [read_data skip_data].
  - by apply (consumes_map read_bytes VBytes), read_bytes_consumes.
  - by eapply skip_bytes_consumes.
Qed.

Lemma fixed_ok size e : len e = size -> read_skip_ok (SFixed size) e.
Proof.
  intros He.
  apply (leaf_ok _ _ (VBytes e)); intros fuel; cbn [read_data skip_data].
  - by apply (consumes_map (read size) VBytes), read_width_consumes.
  - by apply skip_width_consumes.
Qed.

Lemma enum_ok symbols v :
  varint v -> 0 <= varint_value v < len symbols ->
  read_skip_ok (SEnum symbols) v.
Proof.
  intros Hv Hrange.
  destruct (read_enum_consumes symbols v Hv Hrange) as (symbol & _ & Hread).
  apply (leaf_ok _ _ (VSymbol symbol)); intros fuel; cbn [read_data skip_data].
  - done.
  - by apply skip_long_consumes.
Qed.

Lemma array_ok items e : blocks_ok false items e -> read_skip_ok (SArray items) e.
Proof.
  intros (fuel0 & (g & Hread) & Hskip).
  exists (S fuel0), (VArray (g [])). intros fuel Hfuel. need_fuel fuel.
  split.
  - unfold read_array.
    eapply consumes_ext; [intros d; symmetry; apply bind_assoc|].
    apply consumes_map, Hread; lia.
  - apply Hskip; lia.
Qed.

Lemma map_ok values e : blocks_ok true values e -> read_skip_ok (SMap values) e.
Proof.
  intros (fuel0 & (g & Hread) & Hskip).
  exists (S fuel0), (VMap (g [])). intros fuel Hfuel. need_fuel fuel.
  split.
  - unfold read_map.
    eapply consumes_ext; [intros d; symmetry; apply bind_assoc|].
    apply consumes_map, Hread; lia.
  - apply Hskip; lia.
Qed.

Lemma union_ok schemas v s e :
  varint v -> 0 <= varint_value v ->
  schemas !! Z.to_nat (varint_value v) = Some s ->
  read_skip_ok s e -> read_skip_ok (SUnion schemas) (v ++ e).
Proof.
  intros Hv Hlo Hs (fuel0 & x & IH).
  assert (varint_value v < len schemas) as Hhi
    by (apply lookup_lt_Some in Hs; unfold len; lia).
  exists (S fuel0), x. intros fuel Hfuel. need_fuel fuel.
  destruct (IH fuel ltac:(lia)) as [Hread Hskip].
  split.
  - unfold read_union.
    eapply consumes_bind; [by apply read_long_consumes|].
    destruct (Z.geb_spec (varint_value v) (len schemas)); [lia|].
    by rewrite (getitem_in_range _ _ _ Hlo Hs).
  - unfold skip_union.
    eapply consumes_bind; [by apply read_long_consumes|].
    destruct (Z.geb_spec (varint_value v) (len schemas)); [lia|].
    by rewrite (getitem_in_range _ _ _ Hlo Hs).
Qed.

Lemma record_ok fields e : fields_ok fields e -> read_skip_ok (SRecord fields) e.
Proof.
  intros (fuel0 & g & IH).
  exists (S fuel0), (VRecord (g [])). intros fuel Hfuel. need_fuel fuel.
  destruct (IH fuel ltac:(lia)) as [Hread Hskip].
  split; [|done]. unfold read_record. apply consumes_map, Hread.
Qed.

Lemma fields_nil_ok : fields_ok [] [].
Proof.
  exists 0%nat, (fun acc => acc). intros fuel _. split.
  - intros acc. exact (consumes_ret acc).
  - exact (consumes_ret tt).
Qed.

Lemma fields_cons_ok name s fields e rest :
  read_skip_ok s e -> fields_ok fields rest ->
  fields_ok ((name, s) :: fields) (e ++ rest).
Proof.
  intros (f1 & v & IH1) (f2 & g & IH2).
  exists (f1 `max` f2)%nat, (fun acc => g (dict_set name v acc)).
  intros fuel Hfuel.
  destruct (IH1 fuel ltac:(lia)) as [Hread1 Hskip1].
  destruct (IH2 fuel ltac:(lia)) as [Hread2 Hskip2].
  split.
  - intros acc. cbn [read_record_fields].
    eapply consumes_bind; [done|]. apply Hread2.
  - cbn [skip_record]. eapply consumes_bind; [done|]. apply Hskip2.
Qed.

Lemma items_O_ok keyed s : items_ok keyed s O [].
Proof.
  exists 0%nat. split.
  - destruct keyed; exists (fun acc => acc); intros fuel acc _;
      exact (consumes_ret acc).
  - intros fuel _. destruct keyed; exact (consumes_ret tt).
Qed.

Lemma items_S_ok s n e rest :
  read_skip_ok s e -> items_ok false s n rest ->
  items_ok false s (S n) (e ++ rest).
Proof.
  intros (f1 & v & IH1) (f2 & (g & Hread2) & Hskip2).
  exists (f1 `max` f2)%nat. split.
  - exists (fun acc => g (acc ++ [v])). intros fuel acc Hfuel.
    destruct (IH1 fuel ltac:(lia)) as [Hread1 _].
    cbn [read_array_items]. eapply consumes_bind; [done|].
    apply Hread2; lia.
  - intros fuel Hfuel. destruct (IH1 fuel ltac:(lia)) as [_ Hskip1].
    cbn [skip_array_items]. eapply consumes_bind; [done|].
    apply Hskip2; lia.
Qed.

Lemma items_S_keyed_ok s n k key e rest :
  bytes_encoding k key -> utf8_valid key = true ->
  read_skip_ok s e -> items_ok true s n rest ->
  items_ok true s (S n) (k ++ e ++ rest).
Proof.
  intros Hk Hvalid (f1 & v & IH1) (f2 & (g & Hread2) & Hskip2).
  exists (f1 `max` f2)%nat. split.
  - exists (fun acc => g (dict_set key v acc)). intros fuel acc Hfuel.
    destruct (IH1 fuel ltac:(lia)) as [Hread1 _].
    cbn [read_map_items].
    eapply consumes_bind; [by apply read_utf8_consumes|].
    eapply consumes_bind; [done|]. apply Hread2; lia.
  - intros fuel Hfuel. destruct (IH1 fuel ltac:(lia)) as [_ Hskip1].
    cbn [skip_map_items].
    eapply consumes_bind; [by eapply skip_bytes_consumes|].
    eapply consumes_bind; [done|]. apply Hskip2; lia.
Qed.

Lemma blocks_end_ok keyed s v :
  varint v -> varint_value v = 0 -> blocks_ok keyed s v.
Proof.
  intros Hv Hzero. exists 0%nat. split.
  - destruct keyed; exists (fun acc => acc); intros fuel budget acc _ _;
      (eapply consumes_bind_nil; [by apply read_long_consumes|]);
      rewrite Hzero, ?read_array_blocks_zero, ?read_map_blocks_zero;
      apply consumes_ret.
  - intros fuel budget _ _.
    destruct keyed;
      (eapply consumes_bind_nil; [by apply read_long_consumes|]);
      rewrite Hzero, ?skip_array_blocks_zero, ?skip_map_blocks_zero;
      apply consumes_ret.
Qed.

Lemma blocks_pos_ok keyed s v its rest :
  varint v -> 0 < varint_value v ->
  items_ok keyed s (Z.to_nat (varint_value v)) its ->
  blocks_ok keyed s rest ->
  blocks_ok keyed s (v ++ its ++ rest).
Proof.
  intros Hv Hpos (f1 & Hr1 & Hs1) (f2 & Hr2 & Hs2).
  exists (S (f1 `max` f2)). split.
  - destruct keyed; destruct Hr1 as [g1 Hr1], Hr2 as [g2 Hr2];
      exists (fun acc => g2 (g1 acc)); intros fuel budget acc Hfuel Hbudget;
      (destruct budget as [|budget]; [lia|]);
      (eapply consumes_bind; [by apply read_long_consumes|]).
    + eapply consumes_ext;
        [intros d; symmetry; by apply read_map_blocks_pos|].
      eapply consumes_bind; [apply Hr1; lia|]. apply Hr2; lia.
    + eapply consumes_ext;
        [intros d; symmetry; by apply read_array_blocks_pos|].
      eapply consumes_bind; [apply Hr1; lia|]. apply Hr2; lia.
  - intros fuel budget Hfuel Hbudget.
    destruct budget as [|budget]; [lia|].
    eapply consumes_bind; [by apply read_long_consumes|].
    destruct keyed.
    + eapply consumes_ext;
        [intros d; symmetry; by apply skip_map_blocks_pos|].
      eapply consumes_bind; [apply Hs1; lia|]. apply Hs2; lia.
    + eapply consumes_ext;
        [intros d; symmetry; by apply skip_array_blocks_pos|].
      eapply consumes_bind; [apply Hs1; lia|]. apply Hs2; lia.
Qed.

Lemma blocks_neg_ok keyed s v vsize its rest :
  varint v -> varint_value v < 0 ->
  varint vsize -> varint_value vsize = len its ->
  items_ok keyed s (Z.to_nat (- varint_value v)) its ->
  blocks_ok keyed s rest ->
  blocks_ok keyed s (v ++ vsize ++ its ++ rest).
Proof.
  intros Hv Hneg Hvsize Hsize (f1 & Hr1 & Hs1) (f2 & Hr2 & Hs2).
  exists (S (f1 `max` f2)). split.
  - destruct keyed; destruct Hr1 as [g1 Hr1], Hr2 as [g2 Hr2];
      exists (fun acc => g2 (g1 acc)); intros fuel budget acc Hfuel Hbudget;
      (destruct budget as [|budget]; [lia|]);
      (eapply consumes_bind; [by apply read_long_consumes|]).
    + eapply consumes_ext;
        [intros d; symmetry; by apply read_map_blocks_neg|].
      eapply consumes_bind; [by apply read_long_consumes|].
      eapply consumes_bind; [apply Hr1; lia|]. apply Hr2; lia.
    + eapply consumes_ext;
        [intros d; symmetry; by apply read_array_blocks_neg|].
      eapply consumes_bind; [by apply read_long_consumes|].
      eapply consumes_bind; [apply Hr1; lia|]. apply Hr2; lia.
  - intros fuel budget Hfuel Hbudget.
    destruct budget as [|budget]; [lia|].
    eapply consumes_bind; [by apply read_long_consumes|].
    destruct keyed.
    + eapply consumes_ext;
        [intros d; symmetry; by apply skip_map_blocks_neg|].
      eapply consumes_bind; [by apply read_long_consumes|].
      rewrite Hsize. eapply consumes_bind; [apply skip_consumes|].
      apply Hs2; lia.
    + eapply consumes_ext;
        [intros d; symmetry; by apply skip_array_blocks_neg|].
      eapply consumes_bind; [by apply read_long_consumes|].
      rewrite Hsize. eapply consumes_bind; [apply skip_consumes|].
      apply Hs2; lia.
Qed.

Lemma wire_format_ok :
  (forall s e, encoding s e -> read_skip_ok s e)
  /\ (forall keyed s n e, enc_items keyed s n e -> items_ok keyed s n e)
  /\ (forall keyed s e, enc_blocks keyed s e -> blocks_ok keyed s e)
  /\ (forall fields e, enc_fields fields e -> fields_ok fields e).
Proof.
  apply encoding_mutind;
    eauto using null_ok, boolean_ok, string_ok, int_ok, long_ok, float_ok,
      double_ok, bytes_ok, fixed_ok, enum_ok, array_ok, map_ok, union_ok,
      record_ok, items_O_ok, items_S_ok, items_S_keyed_ok, blocks_end_ok,
      blocks_pos_ok, blocks_neg_ok, fields_nil_ok, fields_cons_ok.
Qed.

Lemma encoding_read_skip_ok s e : encoding s e -> read_skip_ok s e.
Proof. apply wire_format_ok. Qed.

Lemma enc_items_ok keyed s n e : enc_items keyed s n e -> items_ok keyed s n e.
Proof. apply wire_format_ok. Qed.

(** C3. For every writer schema and every stream whose next bytes [e]
    are a well-formed encoding of a value of that schema, [skip_data] and
    [read_data], started from the same position, both return, and both
    leave the reader at the same position: right after [e]. *)
Theorem skip_data_position_matches_read_data (s : schema) (e : list byte) :
  encoding s e ->
  exists fuel0 v, forall fuel pre post, (fuel0 <= fuel)%nat ->
    read_data fuel s (mkReader (pre ++ e ++ post) (len pre))
    = Ok (v, mkReader (pre ++ e ++ post) (len pre + len e))
    /\ skip_data fuel s (mkReader (pre ++ e ++ post) (len pre))
       = Ok (tt, mkReader (pre ++ e ++ post) (len pre + len e)).
Proof.
  intros He. destruct (encoding_read_skip_ok s e He) as (fuel0 & v & H).
  exists fuel0, v. intros fuel pre post Hfuel.
  destruct (H fuel Hfuel) as [Hread Hskip]. split; [apply Hread | apply Hskip].
Qed.

(** An array of longs written as one block of count -2 and size 2
    (items 2 and -1), then the block of count zero. *)
Lemma negative_block_sample_encoding :
  encoding (SArray SLong) [x03; x04; x04; x01; x00].
Proof.
  apply enc_array.
  apply (enc_blocks_neg false SLong [x03] [x04] [x04; x01] [x00]).
  - by apply varint_last.
  - by vm_compute.
  - by apply varint_last.
  - by vm_compute.
  - apply (enc_items_S SLong 1 [x04] [x01]);
      [by apply enc_long, varint_last|].
    apply (enc_items_S SLong 0 [x01] []);
      [by apply enc_long, varint_last|].
    apply enc_items_O.
  - apply enc_blocks_end; [by apply varint_last | by vm_compute].
Defined.

Lemma skip_data_position_matches_read_data_witness :
  encoding (SArray SLong) [x03; x04; x04; x01; x00]
  /\ exists fuel0 v, forall fuel pre post, (fuel0 <= fuel)%nat ->
       read_data fuel (SArray SLong)
         (mkReader (pre ++ [x03; x04; x04; x01; x00] ++ post) (len pre))
       = Ok (v, mkReader (pre ++ [x03; x04; x04; x01; x00] ++ post) (len pre + 5))
       /\ skip_data fuel (SArray SLong)
            (mkReader (pre ++ [x03; x04; x04; x01; x00] ++ post) (len pre))
          = Ok (tt, mkReader (pre ++ [x03; x04; x04; x01; x00] ++ post)
                             (len pre + 5)).
Proof.
  split; [exact negative_block_sample_encoding|].
  exact (skip_data_position_matches_read_data _ _ negative_block_sample_encoding).
Defined.

(** The bytes [02 08 t e s t 00] against the union of null and string:
    branch 1 (zig-zag [02]), length 4 (zig-zag [08]), the text; the
    trailing [00] is left unread. *)
Example read_union_sample :
  read_data 2 (SUnion [SNull; SString])
    (mkReader [x02; x08; x74; x65; x73; x74; x00] 0)
  = Ok (VString [x74; x65; x73; x74],
        mkReader [x02; x08; x74; x65; x73; x74; x00] 6).
Proof. reflexivity. Qed.

(** A record with a map and an enum: one key/value pair in a block of
    count 1, the block of count zero, then the symbol of index 1. *)
Example read_record_sample :
  read_data 4
    (SRecord [("m", SMap SBoolean); ("e", SEnum ["A"; "B"])]%string)
    (mkReader [x02; x02; x6b; x01; x00; x02] 0)
  = Ok (VRecord [("m", VMap [([x6b], VBoolean true)]); ("e", VSymbol "B")]%string,
        mkReader [x02; x02; x6b; x01; x00; x02] 6).
Proof. reflexivity. Qed.

Example skip_record_sample :
  skip_data 4
    (SRecord [("m", SMap SBoolean); ("e", SEnum ["A"; "B"])]%string)
    (mkReader [x02; x02; x6b; x01; x00; x02] 0)
  = Ok (tt, mkReader [x02; x02; x6b; x01; x00; x02] 6).
Proof. reflexivity. Qed.

Example read_negative_block_sample :
  read_data 3 (SArray SLong) (mkReader [x03; x04; x04; x01; x00; xff] 0)
  = Ok (VArray [VLong 2; VLong (-1)], mkReader [x03; x04; x04; x01; x00; xff] 5).
Proof. reflexivity. Qed.

Example skip_negative_block_sample :
  skip_data 3 (SArray SLong) (mkReader [x03; x04; x04; x01; x00; xff] 0)
  = Ok (tt, mkReader [x03; x04; x04; x01; x00; xff] 5).
Proof. reflexivity. Qed.

(** *** Blocks of negative count, and the block of count zero *)

Section NegativeBlocks.
Variable rd : schema -> M value.
Variable sk : schema -> M unit.
Variables (s : schema) (vc vsize v0 : list byte).
Hypothesis Hvc : varint vc.
Hypothesis Hneg : varint_value vc < 0.
Hypothesis Hvsize : varint vsize.
Hypothesis Hv0 : varint v0.
Hypothesis Hzero : varint_value v0 = 0.

Lemma read_array_zero budget : consumes (read_array rd budget s) v0 (VArray []).
Proof.
  unfold read_array. eapply consumes_bind_nil; [by apply read_long_consumes|].
  rewrite Hzero, read_array_blocks_zero. exact (consumes_ret (VArray [])).
Qed.

Lemma read_map_zero budget : consumes (read_map rd budget s) v0 (VMap []).
Proof.
  unfold read_map. eapply consumes_bind_nil; [by apply read_long_consumes|].
  rewrite Hzero, read_map_blocks_zero. exact (consumes_ret (VMap [])).
Qed.

Lemma skip_array_zero budget : consumes (skip_array sk budget s) v0 tt.
Proof.
  unfold skip_array. eapply consumes_bind_nil; [by apply read_long_consumes|].
  rewrite Hzero, skip_array_blocks_zero. apply consumes_ret.
Qed.

Lemma skip_map_zero budget : consumes (skip_map sk budget s) v0 tt.
Proof.
  unfold skip_map. eapply consumes_bind_nil; [by apply read_long_consumes|].
  rewrite Hzero, skip_map_blocks_zero. apply consumes_ret.
Qed.

Lemma read_array_negative_block its g budget :
  (forall acc, consumes
     (read_array_items rd s (Z.to_nat (- varint_value vc)) acc) its (g acc)) ->
  consumes (read_array rd (S budget) s) (vc ++ vsize ++ its ++ v0)
           (VArray (g [])).
Proof.
  intros Hitems. unfold read_array.
  eapply consumes_bind; [by apply read_long_consumes|].
  apply consumes_map.
  eapply consumes_ext; [intros d; symmetry; by apply read_array_blocks_neg|].
  eapply consumes_bind; [by apply read_long_consumes|].
  eapply consumes_bind; [apply Hitems|].
  eapply consumes_bind_nil; [by apply read_long_consumes|].
  rewrite Hzero, read_array_blocks_zero. apply consumes_ret.
Qed.

Lemma read_map_negative_block its g budget :
  (forall acc, consumes
     (read_map_items rd s (Z.to_nat (- varint_value vc)) acc) its (g acc)) ->
  consumes (read_map rd (S budget) s) (vc ++ vsize ++ its ++ v0)
           (VMap (g [])).
Proof.
  intros Hitems. unfold read_map.
  eapply consumes_bind; [by apply read_long_consumes|].
  apply consumes_map.
  eapply consumes_ext; [intros d; symmetry; by apply read_map_blocks_neg|].
  eapply consumes_bind; [by apply read_long_consumes|].
  eapply consumes_bind; [apply Hitems|].
  eapply consumes_bind_nil; [by apply read_long_consumes|].
  rewrite Hzero, read_map_blocks_zero. apply consumes_ret.
Qed.

(** Skipping never calls [skip_data] on a block of negative count:
    [payload] is any run of bytes of the announced size. *)
Lemma skip_array_negative_block payload budget :
  varint_value vsize = len payload ->
  consumes (skip_array sk (S budget) s) (vc ++ vsize ++ payload ++ v0) tt.
Proof.
  intros Hsize. unfold skip_array.
  eapply consumes_bind; [by apply read_long_consumes|].
  eapply consumes_ext; [intros d; symmetry; by apply skip_array_blocks_neg|].
  eapply consumes_bind; [by apply read_long_consumes|].
  rewrite Hsize. eapply consumes_bind; [apply skip_consumes|].
  eapply consumes_bind_nil; [by apply read_long_consumes|].
  rewrite Hzero, skip_array_blocks_zero. apply consumes_ret.
Qed.

Lemma skip_map_negative_block payload budget :
  varint_value vsize = len payload ->
  consumes (skip_map sk (S budget) s) (vc ++ vsize ++ payload ++ v0) tt.
Proof.
  intros Hsize. unfold skip_map.
  eapply consumes_bind; [by apply read_long_consumes|].
  eapply consumes_ext; [intros d; symmetry; by apply skip_map_blocks_neg|].
  eapply consumes_bind; [by apply read_long_consumes|].
  rewrite Hsize. eapply consumes_bind; [apply skip_consumes|].
  eapply consumes_bind_nil; [by apply read_long_consumes|].
  rewrite Hzero, skip_map_blocks_zero. apply consumes_ret.
Qed.

Lemma read_array_items_length n : forall acc d l d',
  read_array_items rd s n acc d = Ok (l, d') ->
  length l = (length acc + n)%nat.
Proof.
  induction n as [|n IH]; intros acc d l d'; cbn [read_array_items].
  - intros [= <- _]. lia.
  - unfold bind at 1. destruct (rd s d) as [[v d1]| |]; [|done|done].
    intros Hl. apply IH in Hl. rewrite length_app in Hl. simpl in Hl. lia.
Qed.
End NegativeBlocks.

(** C2. In an array ([keyed = false]) or a map ([keyed = true]) whose
    next block has a negative count [c]:
    - reading takes one further long (the size, whatever its value), then
      decodes exactly [abs c] items (key/value pairs) with the item
      (value) schema, and goes on to the next block count;
    - skipping takes the size long and moves the position forward by
      exactly that many bytes, whatever those bytes are;
    and, reading or skipping, a block count of zero ends the sequence. *)
Theorem negative_block_count_read_and_skip (keyed : bool) (s : schema)
    (vc vsize its payload v0 : list byte) :
  varint vc -> varint_value vc < 0 ->
  varint vsize -> varint_value vsize = len payload ->
  varint v0 -> varint_value v0 = 0 ->
  enc_items keyed s (Z.abs_nat (varint_value vc)) its ->
  let ws := if keyed then SMap s else SArray s in
  exists fuel0 v, forall fuel pre post, (fuel0 <= fuel)%nat ->
    read_data fuel ws (at_start pre (vc ++ vsize ++ its ++ v0) post)
    = Ok (v, at_end pre (vc ++ vsize ++ its ++ v0) post)
    /\ (forall l, v = VArray l -> length l = Z.abs_nat (varint_value vc))
    /\ skip_data fuel ws (at_start pre (vc ++ vsize ++ payload ++ v0) post)
       = Ok (tt, at_end pre (vc ++ vsize ++ payload ++ v0) post)
    /\ read_data fuel ws (at_start pre v0 post)
       = Ok (if keyed then VMap [] else VArray [], at_end pre v0 post)
    /\ skip_data fuel ws (at_start pre v0 post) = Ok (tt, at_end pre v0 post).
Proof.
  intros Hvc Hneg Hvsize Hsize Hv0 Hzero Hits ws.
  assert (Z.abs_nat (varint_value vc) = Z.to_nat (- varint_value vc)) as Habs
    by lia.
  rewrite Habs in *.
  destruct (enc_items_ok _ _ _ _ Hits) as (f1 & Hr & _).
  destruct keyed; destruct Hr as [g Hr]; subst ws.
  - exists (S (S f1)), (VMap (g [])). intros fuel pre post Hfuel.
    destruct fuel as [|fuel]; [lia|]. cbn [read_data skip_data].
    destruct fuel as [|fuel]; [lia|].
    split; [apply read_map_negative_block; try done; intros acc; apply Hr; lia|].
    split; [by intros l [=]|].
    split; [by apply skip_map_negative_block|].
    split; [by apply read_map_zero | by apply skip_map_zero].
  - exists (S (S f1)), (VArray (g [])). intros fuel pre post Hfuel.
    destruct fuel as [|fuel]; [lia|]. cbn [read_data skip_data].
    destruct fuel as [|fuel]; [lia|].
    split; [apply read_array_negative_block; try done; intros acc; apply Hr; lia|].
    split.
    { intros l [= <-].
      pose proof (Hr f1 [] (Nat.le_refl _) [] []) as Hrun.
      by apply read_array_items_length in Hrun. }
    split; [by apply skip_array_negative_block|].
    split; [by apply read_array_zero | by apply skip_array_zero].
Qed.

(** A block of count -2 whose size field says 3: reading still takes the
    two items [04], [01] that follow; skipping jumps the three bytes
    [aa bb cc] without looking at them. *)
Lemma negative_block_count_read_and_skip_witness :
  exists fuel0 v, forall fuel pre post, (fuel0 <= fuel)%nat ->
    read_data fuel (SArray SLong) (at_start pre [x03; x06; x04; x01; x00] post)
    = Ok (v, at_end pre [x03; x06; x04; x01; x00] post)
    /\ (forall l, v = VArray l -> length l = 2%nat)
    /\ skip_data fuel (SArray SLong)
         (at_start pre [x03; x06; xaa; xbb; xcc; x00] post)
       = Ok (tt, at_end pre [x03; x06; xaa; xbb; xcc; x00] post)
    /\ read_data fuel (SArray SLong) (at_start pre [x00] post)
       = Ok (VArray [], at_end pre [x00] post)
    /\ skip_data fuel (SArray SLong) (at_start pre [x00] post)
       = Ok (tt, at_end pre [x00] post).
Proof.
  apply (negative_block_count_read_and_skip false SLong
           [x03] [x06] [x04; x01] [xaa; xbb; xcc] [x00]).
  - by apply varint_last.
  - by vm_compute.
  - by apply varint_last.
  - by vm_compute.
  - by apply varint_last.
  - by vm_compute.
  - apply (enc_items_S SLong 1 [x04] [x01]);
      [by apply enc_long, varint_last|].
    apply (enc_items_S SLong 0 [x01] []);
      [by apply enc_long, varint_last|].
    apply enc_items_O.
Defined.

(** *** The index check of [read_enum], [read_union] and [skip_union] *)

Lemma getitem_from_end {A} (l : list A) (i : Z) :
  - len l <= i < 0 ->
  exists x, l !! Z.to_nat (len l + i) = Some x /\ getitem l i = ret x.
Proof.
  intros [Hlo Hhi].
  destruct (lookup_lt_is_Some_2 l (Z.to_nat (len l + i))) as [x Hx];
    [unfold len in *; lia|].
  exists x. split; [done|]. unfold getitem.
  destruct (Z.ltb_spec i 0); [|lia].
  destruct (Z.ltb_spec (i + len l) 0); [lia|].
  by rewrite (Z.add_comm i), Hx.
Qed.

Lemma index_accepted (i n : Z) : i < 0 -> 0 <= n -> (i >=? n) = false.
Proof. intros. destruct (Z.geb_spec i n); [lia | done]. Qed.

(** C10. [read_enum] and [read_union] (and [skip_union]) reject only
    the indices that are at least the number [n] of symbols or branches:
    such an index is a [SchemaResolutionException], whereas a decoded
    index [i] with [-n <= i < 0] is not rejected and selects the element at
    position [n + i] (so -1 selects the last symbol or branch). *)
Theorem negative_index_selects_from_end (v : list byte) :
  varint v ->
  let i := varint_value v in
  (forall symbols, - len symbols <= i < 0 ->
     exists symbol,
       symbols !! Z.to_nat (len symbols + i) = Some symbol
       /\ forall fuel pre post,
            read_data (S fuel) (SEnum symbols) (at_start pre v post)
            = Ok (VSymbol symbol, at_end pre v post))
  /\ (forall schemas, - len schemas <= i < 0 ->
       exists branch,
         schemas !! Z.to_nat (len schemas + i) = Some branch
         /\ forall fuel pre post,
              read_data (S fuel) (SUnion schemas) (at_start pre v post)
              = read_data fuel branch (at_end pre v post)
              /\ skip_data (S fuel) (SUnion schemas) (at_start pre v post)
                 = skip_data fuel branch (at_end pre v post))
  /\ (forall symbols fuel pre post, len symbols <= i ->
       read_data (S fuel) (SEnum symbols) (at_start pre v post)
       = Raise SchemaResolutionException)
  /\ (forall schemas fuel pre post, len schemas <= i ->
       read_data (S fuel) (SUnion schemas) (at_start pre v post)
       = Raise SchemaResolutionException
       /\ skip_data (S fuel) (SUnion schemas) (at_start pre v post)
          = Raise SchemaResolutionException).
Proof.
  intros Hv i. pose proof (read_long_consumes v Hv) as Hlong. fold i in Hlong.
  repeat split.
  - intros symbols Hi.
    destruct (getitem_from_end symbols i Hi) as (symbol & Hsym & Hget).
    exists symbol. split; [done|]. intros fuel pre post.
    cbn [read_data]. unfold read_enum, read_int, bind at 1.
    rewrite Hlong, index_accepted, Hget by (unfold len; lia). done.
  - intros schemas Hi.
    destruct (getitem_from_end schemas i Hi) as (branch & Hbranch & Hget).
    exists branch. split; [done|]. intros fuel pre post.
    cbn [read_data skip_data]. unfold read_union, skip_union, bind.
    rewrite Hlong, index_accepted, Hget by (unfold len; lia). done.
  - intros symbols fuel pre post Hi.
    cbn [read_data]. unfold read_enum, read_int, bind at 1. rewrite Hlong.
    by destruct (Z.geb_spec i (len symbols)); [|lia].
  - cbn [read_data]. unfold read_union, bind at 1. rewrite Hlong.
    by destruct (Z.geb_spec i (len schemas)); [|lia].
  - cbn [skip_data]. unfold skip_union, bind at 1. rewrite Hlong.
    by destruct (Z.geb_spec i (len schemas)); [|lia].
Qed.

(** The byte [01] decodes to -1: the last of the symbols A, B. *)
Lemma negative_index_selects_from_end_witness :
  read_data 1 (SEnum ["A"; "B"]%string) (mkReader [x00; x01; xff] 1)
  = Ok (VSymbol "B", mkReader [x00; x01; xff] 2).
Proof.
  destruct (proj1 (negative_index_selects_from_end [x01]
                     ltac:(by apply varint_last))
              ["A"; "B"]%string ltac:(by vm_compute))
    as (symbol & Hsym & Hread).
  injection Hsym as <-. exact (Hread 0%nat [x00] [xff]).
Defined.

(** C4. The index check misses the negative indices.  With the symbols
    A, B the decoded index -1 (byte [01]) yields B and -3 (byte [05]) is
    an [IndexError]; with the branches null, long the decoded index -1
    decodes a long.  None of them is a [SchemaResolutionException],
    though all lie outside the zero-based range; the index 2 (byte [04])
    is one. *)
Theorem negative_index_not_rejected :
  read_data 2 (SEnum ["A"; "B"]%string) (mkReader [x01] 0)
  = Ok (VSymbol "B", mkReader [x01] 1)
  /\ read_data 2 (SEnum ["A"; "B"]%string) (mkReader [x05] 0)
     = Raise IndexError
  /\ read_data 2 (SUnion [SNull; SLong]) (mkReader [x01; x04] 0)
     = Ok (VLong 2, mkReader [x01; x04] 2)
  /\ read_data 2 (SUnion [SNull; SLong]) (mkReader [x05; x04] 0)
     = Raise IndexError
  /\ read_data 2 (SEnum ["A"; "B"]%string) (mkReader [x04] 0)
     = Raise SchemaResolutionException.
Proof. repeat split. Qed.

End AvroDatumReader.

(* ===================================================================== *)
(** * Properties of the polling method                                    *)
(* ===================================================================== *)

Section PollingProperties.
Import Polling.
Context {R : Type}.
Implicit Types pm : polling_method R.

Lemma run_finished fuel pm : finished pm = true -> run fuel pm = Completed pm.
Proof. intros Hfin. destruct fuel; simpl; by rewrite Hfin. Qed.

Lemma run_times_finished n fuel pm :
  finished pm = true -> run_times n fuel pm = Completed pm.
Proof.
  intros Hfin. induction n as [|n IH]; simpl; [done|].
  by rewrite run_finished.
Qed.

Lemma run_completed_finished fuel : forall pm pm',
  run fuel pm = Completed pm' ->
  finished pm' = true /\ resource pm' = resource pm.
Proof.
  induction fuel as [|fuel IH]; intros pm pm'; simpl.
  - destruct (finished pm) eqn:Hfin; [|done]. by intros [= <-].
  - destruct (finished pm) eqn:Hfin; [by intros [= <-]|].
    destruct (command pm (invocations pm)); [by intros [= <-]| |done].
    intros Hrun. by apply IH in Hrun.
Qed.

(** C6. Once [finished()] is true, any number of further calls of
    [run()] return at once: the command is not invoked, nothing is slept,
    and [resource()] and [finished()] stay as they are. *)
Theorem run_after_completion_is_idle pm :
  finished pm = true ->
  forall n fuel,
    exists pm',
      run_times n fuel pm = Completed pm'
      /\ invocations pm' = invocations pm
      /\ sleeps pm' = sleeps pm
      /\ resource pm' = resource pm
      /\ finished pm' = true.
Proof.
  intros Hfin n fuel. exists pm. by rewrite run_times_finished.
Qed.

Lemma run_polls_until_found K : forall pm fuel,
  finished pm = false ->
  (forall i, (i < K)%nat ->
     command pm (invocations pm + i) = RaisedResourceNotFound) ->
  command pm (invocations pm + K) = Returned ->
  (K < fuel)%nat ->
  run fuel pm
  = Completed (mkPolling (command pm) (final_resource pm) true (interval pm)
                         (invocations pm + K + 1)
                         (sleeps pm ++ replicate K (interval pm))).
Proof.
  induction K as [|K IH]; intros pm fuel Hfin Hnot Hret Hfuel;
    (destruct fuel as [|fuel]; [lia|]); simpl; rewrite Hfin.
  - rewrite Nat.add_0_r in Hret. rewrite Hret, app_nil_r.
    do 2 f_equal. lia.
  - pose proof (Hnot 0%nat ltac:(lia)) as H0. rewrite Nat.add_0_r in H0.
    rewrite H0, IH; simpl; try done; try lia.
    + rewrite <- app_assoc. simpl. do 2 f_equal. lia.
    + intros i Hi. rewrite <- (Hnot (S i)) by lia. f_equal. lia.
    + rewrite <- Hret. f_equal. lia.
Qed.

(** C7. If the command raises the not-found error exactly [K] times
    and then returns, [run()] sleeps the configured interval exactly [K]
    times, invokes the command exactly [K + 1] times, and ends with
    [finished()] true. *)
Theorem run_absorbs_not_found (K : nat) pm :
  finished pm = false ->
  (forall i, (i < K)%nat ->
     command pm (invocations pm + i) = RaisedResourceNotFound) ->
  command pm (invocations pm + K) = Returned ->
  forall fuel, (K < fuel)%nat ->
    exists pm',
      run fuel pm = Completed pm'
      /\ finished pm' = true
      /\ invocations pm' = (invocations pm + (K + 1))%nat
      /\ sleeps pm' = sleeps pm ++ replicate K (interval pm)
      /\ resource pm' = resource pm.
Proof.
  intros Hfin Hnot Hret fuel Hfuel.
  eexists. split; [by apply (run_polls_until_found K)|].
  simpl. repeat split. lia.
Qed.

End PollingProperties.

Section PollingTests.
Import Polling.

(** [test_initialized_finished] and the second half of
    [test_run_idempotence]. *)
Lemma run_after_completion_is_idle_witness :
  exists pm',
    run_times 4 7 (init (test_command 3) tt true 2) = Completed pm'
    /\ invocations pm' = 0%nat
    /\ sleeps pm' = []
    /\ resource pm' = tt
    /\ finished pm' = true.
Proof.
  exact (run_after_completion_is_idle
           (init (test_command 3) tt true 2) eq_refl 4%nat 7%nat).
Defined.

(** [test_continues_polling_when_resource_not_found]: three times not
    found, then a return. *)
Lemma run_absorbs_not_found_witness :
  exists pm',
    run 4 (init (test_command 3) tt false 2) = Completed pm'
    /\ finished pm' = true
    /\ invocations pm' = 4%nat
    /\ sleeps pm' = [2; 2; 2]%Z
    /\ resource pm' = tt.
Proof.
  apply (run_absorbs_not_found 3 (init (test_command 3) tt false 2) eq_refl).
  - intros i Hi. simpl. unfold test_command.
    destruct (Nat.ltb_spec i 3); [done | lia].
  - reflexivity.
  - lia.
Defined.

Example run_test_command :
  run 10 (init (test_command 3) tt false 2)
  = Completed (mkPolling (test_command 3) tt true 2 4 [2; 2; 2]%Z).
Proof. reflexivity. Qed.

End PollingTests.

(* ===================================================================== *)
(** * Properties of the tracing policy                                    *)
(* ===================================================================== *)

Section TracingRules.
Import Tracing.

Lemma triple_ret {A} E (Q : A -> world -> Prop) a : triple E (Q a) (ret a) Q.
Proof. by intros w Hw. Qed.

Lemma triple_bind {A B} E P (c : T A) (k : A -> T B) Q1 Q2 :
  triple E P c Q1 -> (forall a, triple E (Q1 a) (k a) Q2) ->
  triple E P (bind c k) Q2.
Proof.
  intros Hc Hk w Hw. unfold bind. specialize (Hc w Hw).
  destruct (c w) as [[a|e] w']; [by apply Hk | done].
Qed.

Lemma triple_weaken {A} E (P P' : world -> Prop) (c : T A)
    (Q Q' : A -> world -> Prop) :
  (forall w, P' w -> P w) -> (forall a w, Q a w -> Q' a w) ->
  triple E P c Q -> triple E P' c Q'.
Proof.
  intros HP HQ Hc w Hw. specialize (Hc w (HP w Hw)).
  destruct (c w) as [[a|e] w']; [by apply HQ | done].
Qed.

Lemma triple_call {A} E (P : world -> Prop) (r : result A) :
  (forall e w, P w -> E e w) -> triple E P (call r) (fun _ => P).
Proof. intros HE w Hw. unfold call. destruct r; [done | by apply HE]. Qed.

Lemma triple_get {A} E (P : world -> Prop) (f : world -> A) :
  triple E P (get f) (fun _ => P).
Proof. by intros w Hw. Qed.

Lemma triple_modify E (P Q : world -> Prop) (f : world -> world) :
  (forall w, P w -> Q (f w)) -> triple E P (modify f) (fun _ => Q).
Proof. intros H w Hw. by apply H. Qed.

End TracingRules.

Section TracingSpans.
Import Tracing.

(** Updating a span without touching its count of ends. *)
Lemma times_ended_update_span ref f w r :
  (forall s, span_ended (f s) = span_ended s) ->
  times_ended (with_spans (alter f ref) w) r = times_ended w r.
Proof.
  intros Hf. unfold times_ended. simpl.
  destruct (decide (ref = r)) as [->|Hne].
  - rewrite list_lookup_alter_eq. destruct (spans w !! r); simpl; [|done].
    by rewrite Hf.
  - by rewrite list_lookup_alter_ne.
Qed.

Lemma times_ended_Some w ref n :
  times_ended w ref = Some n ->
  exists s, spans w !! ref = Some s /\ span_ended s = n.
Proof.
  unfold times_ended. destruct (spans w !! ref) as [s|]; [|done].
  intros [= <-]. eauto.
Qed.

Lemma add_attributes_run ref attrs w :
  add_attributes ref attrs w
  = (Returns tt, with_spans (alter (add_all (map_to_list attrs)) ref) w).
Proof.
  unfold add_attributes. revert w.
  induction (map_to_list attrs) as [|kv l IH]; intros w.
  - unfold ret, with_spans. simpl. destruct w; simpl. do 2 f_equal.
    symmetry. apply list_alter_id. by intros [].
  - set (ins := fun s =>
        mkSpan (span_name s) (span_is_plugin s)
               (<[kv.1 := kv.2]> (span_attributes s))
               (span_http s) (span_ended s) (span_exit s)).
    etrans; [exact (IH (with_spans (alter ins ref) w))|].
    unfold with_spans. simpl. do 2 f_equal.
    by rewrite list_alter_alter_eq.
Qed.

End TracingSpans.

Section TracingStable.
Import Tracing.
Variable env : environment.
Variable I : world -> Prop.
Hypothesis Hoptions : forall o, stable I (set_options o).
Hypothesis Hwarning : forall msg, stable I (warning msg).
Hypothesis Hheaders : forall h, stable I (headers_update env h).
Hypothesis Hcontext : forall key value, stable I (context_set key value).
Hypothesis Hnew : forall name is_plugin attrs,
  stable I (new_span name is_plugin attrs).
Hypothesis Hattribute : forall ref key value,
  stable I (add_attribute ref key value).

Lemma stable_ret {A} (a : A) : stable I (ret a).
Proof. apply (triple_ret _ (fun _ => I)). Qed.

Lemma stable_bind {A B} (c : T A) (k : A -> T B) :
  stable I c -> (forall a, stable I (k a)) -> stable I (bind c k).
Proof. intros Hc Hk. by eapply triple_bind. Qed.

Lemma stable_call {A} (r : result A) : stable I (call r).
Proof. by apply triple_call. Qed.

Lemma stable_get {A} (f : world -> A) : stable I (get f).
Proof. apply triple_get. Qed.

Lemma stable_add_attributes ref attrs : stable I (add_attributes ref attrs).
Proof.
  unfold add_attributes. induction (map_to_list attrs) as [|kv l IH]; simpl.
  - apply stable_ret.
  - apply stable_bind; [apply Hattribute | done].
Qed.

Lemma stable_start_plugin_span impl span_name span_attributes :
  stable I (start_plugin_span env impl span_name span_attributes).
Proof.
  unfold start_plugin_span.
  apply stable_bind; [apply stable_call|]. intros _.
  apply stable_bind; [apply Hnew|]. intros span.
  apply stable_bind; [apply stable_add_attributes|]. intros _.
  apply stable_bind; [apply stable_call|]. intros h.
  apply stable_bind; [apply Hheaders|]. intros _. apply Hcontext.
Qed.

Lemma stable_start_core_span span_name span_attributes :
  stable I (start_core_span env span_name span_attributes).
Proof.
  unfold start_core_span.
  apply stable_bind; [apply stable_call|]. intros [tracer|]; [|apply Hwarning].
  apply stable_bind; [apply stable_call|]. intros _.
  apply stable_bind; [apply Hnew|]. intros span.
  apply stable_bind; [apply stable_call|]. intros h.
  apply stable_bind; [apply Hheaders|]. intros _.
  apply stable_bind; [apply Hcontext|]. intros _.
  apply stable_bind; [apply stable_call|]. intros token. apply Hcontext.
Qed.

Lemma stable_on_request_body self : stable I (on_request_body env self).
Proof.
  unfold on_request_body, pop_tracing_options, pop_network_span_namer,
    pop_tracing_attributes.
  apply stable_bind.
  { apply stable_bind; [apply stable_get|]. intros o.
    apply stable_bind; [apply Hoptions|]. intros _. apply stable_ret. }
  intros tracing_options.
  apply stable_bind; [apply stable_call|]. intros tracing_enabled.
  destruct (enabled tracing_options) as [[]|]; try apply stable_ret;
    (destruct (_ && _); [apply stable_ret|]);
    (apply stable_bind; [apply stable_call|]); intros span_impl_type;
    (apply stable_bind;
       [apply stable_bind; [apply stable_get|]; intros o;
        apply stable_bind; [apply Hoptions|]; intros _; apply stable_ret|]);
    intros namer;
    (apply stable_bind;
       [apply stable_bind; [apply stable_get|]; intros o;
        apply stable_bind; [apply Hoptions|]; intros _; apply stable_ret|]);
    intros attrs;
    (apply stable_bind; [apply stable_get|]); intros http;
    (apply stable_bind; [apply stable_call|]); intros span_name;
    (destruct span_impl_type;
       [apply stable_start_plugin_span | apply stable_start_core_span]).
Qed.

(** The handler of [on_request] logs at most a warning. *)
Lemma stable_on_request self w : I w -> I (on_request env self w).2.
Proof.
  intros Hw. unfold on_request.
  pose proof (stable_on_request_body self w Hw) as Hbody.
  destruct (on_request_body env self w) as [[[]|e] w']; [done|].
  destruct (is_Exception e); [|done].
  by apply (Hwarning "Unable to start network span." w').
Qed.
End TracingStable.

Section TracingKept.
Import Tracing.

(** [on_request] leaves the method and the URL alone and takes no
    header away. *)
Lemma on_request_request_kept env self w :
  request_kept (request_line w) (headers (request_http (request w)))
               (on_request env self w).2.
Proof.
  assert (forall f,
            (forall w0, request_http (request (f w0)) = request_http (request w0)) ->
            stable (request_kept (request_line w)
                      (headers (request_http (request w)))) (modify f))
    as Hframe.
  { intros f Hf. apply triple_modify. intros w0 [Hline Hkeys].
    unfold request_kept, request_line. rewrite Hf. by split. }
  apply (stable_on_request env
           (request_kept (request_line w) (headers (request_http (request w))))).
  - intros o. by apply Hframe.
  - intros msg. by apply Hframe.
  - intros h. apply triple_modify. intros w0 [Hline Hkeys].
    split; [done|]. intros key Hkey. simpl. specialize (Hkeys key Hkey).
    revert Hkeys. generalize (headers (request_http (request w0))).
    induction h as [|[name value] h IH]; intros h0 Hh0; simpl; [done|].
    apply IH. unfold header_set. apply lookup_insert_is_Some'. by right.
  - intros key value. by apply Hframe.
  - intros name is_plugin attrs w0 Hw0. done.
  - intros r key value. by apply Hframe.
  - by split.
Qed.

(** [on_request] ends no span. *)
Lemma on_request_ends_kept env self w : ends_kept w (on_request env self w).2.
Proof.
  assert (forall f, (forall w0, spans (f w0) = spans w0) ->
            stable (ends_kept w) (modify f)) as Hframe.
  { intros f Hf. apply triple_modify. intros w0 Hw0 ref n Hn.
    unfold times_ended. rewrite Hf. by apply Hw0. }
  apply (stable_on_request env (ends_kept w)).
  - intros o. by apply Hframe.
  - intros msg. by apply Hframe.
  - intros h. by apply Hframe.
  - intros key value. by apply Hframe.
  - intros name is_plugin attrs w0 Hw0.
    unfold new_span, bind, get, modify, ret. simpl.
    intros ref n Hn. specialize (Hw0 ref n Hn).
    destruct (times_ended_Some _ _ _ Hw0) as (s & Hs & Hended).
    unfold times_ended. simpl. rewrite lookup_app_l, Hs; [by simpl; f_equal|].
    by eapply lookup_lt_Some.
  - intros r key value. apply triple_modify. intros w0 Hw0 ref n Hn.
    rewrite times_ended_update_span; [by apply Hw0 | done].
  - by intros ref n Hn.
Qed.

End TracingKept.
Section TracingHandler.
Import Tracing.

(** [on_request_body] from the state it starts in: the options are
    popped one after the other, the first before the settings are asked,
    the other two before the namer is called. *)
Lemma on_request_body_unfold env self w :
  on_request_body env self w
  = let popped :=
      with_options
        (mkOptions None (opt_network_span_namer (context_options (request w)))
                   (opt_tracing_attributes (context_options (request w)))) w in
    let emptied := with_options (mkOptions None None None) w in
    match settings_tracing_enabled env with
    | Raises e => (Raises e, popped)
    | Returns tracing_enabled =>
        if wants_tracing tracing_enabled w then
          match settings_tracing_implementation env with
          | Raises e => (Raises e, popped)
          | Returns span_impl_type =>
              match call_namer self w (request_http (request w)) with
              | Raises e => (Raises e, emptied)
              | Returns span_name =>
                  let span_attributes :=
                    default ∅ (attributes (call_tracing_options w))
                    ∪ call_base_attributes self w in
                  match span_impl_type with
                  | Some impl =>
                      start_plugin_span env impl span_name span_attributes emptied
                  | None => start_core_span env span_name span_attributes emptied
                  end
              end
          end
        else (Returns tt, popped)
    end.
Proof.
  unfold on_request_body, pop_tracing_options, pop_network_span_namer,
    pop_tracing_attributes, set_options, wants_tracing, call_namer,
    call_tracing_options, call_base_attributes, with_options,
    bind, get, modify, call, ret. simpl.
  destruct (settings_tracing_enabled env) as [tracing_enabled|e]; [|done].
  assert (forall (A : Type) (a b : A),
            match enabled (default (mkTracingOptions None None)
                    (opt_tracing_options (context_options (request w)))) with
            | Some false => a
            | _ =>
                if negb tracing_enabled
                   && bool_decide
                        (enabled (default (mkTracingOptions None None)
                           (opt_tracing_options (context_options (request w))))
                         = None)
                then a else b
            end
            = if match enabled (default (mkTracingOptions None None)
                          (opt_tracing_options (context_options (request w)))) with
                 | Some user_enabled => user_enabled
                 | None => tracing_enabled
                 end
              then b else a) as Hgo.
  { intros A a b. destruct (enabled _) as [[]|]; simpl; [|done|].
    - by destruct tracing_enabled.
    - by destruct tracing_enabled. }
  simpl. rewrite Hgo. destruct (match enabled _ with Some _ => _ | None => _ end);
    [|done].
  destruct (settings_tracing_implementation env) as [impl|e]; [|done].
  simpl. destruct (default _ _ _) as [name|e]; [|done]. by destruct impl.
Qed.

(** The two ways of starting a span log nothing before they raise, and
    what they raise comes from the plugin or from the tracer. *)
Lemma start_plugin_span_failure env impl span_name span_attributes w :
  ordinary (impl_new impl) -> ordinary (impl_to_header impl) ->
  match start_plugin_span env impl span_name span_attributes w with
  | (Returns _, _) => True
  | (Raises e, w1) => is_Exception e = true /\ warnings w1 = warnings w
  end.
Proof.
  intros Hnew Hheader.
  unfold start_plugin_span, bind at 1, call at 1.
  destruct (impl_new impl) as [[]|e]; [|done].
  unfold bind at 1, new_span, bind at 1, get, modify, ret. simpl.
  unfold bind at 1. rewrite add_attributes_run.
  unfold bind at 1, call. by destruct (impl_to_header impl) as [h|e].
Qed.

Lemma start_core_span_failure env span_name span_attributes w :
  ordinary (get_tracer env) ->
  (forall tr,
     get_tracer env = Returns (Some tr) ->
     ordinary (start_span tr) /\ ordinary (get_trace_context tr)
     /\ ordinary (suppress_auto_http_instrumentation tr)) ->
  match start_core_span env span_name span_attributes w with
  | (Returns _, _) => True
  | (Raises e, w1) => is_Exception e = true /\ warnings w1 = warnings w
  end.
Proof.
  intros Htracer Hcalls.
  unfold start_core_span, bind at 1, call at 1.
  destruct (get_tracer env) as [[tr|]|e]; [|done..].
  destruct (Hcalls tr eq_refl) as (Hstart & Hheaders & Htoken).
  unfold bind, call, new_span, get, modify, ret. simpl.
  destruct (start_span tr) as [[]|e]; [|done]. simpl.
  destruct (get_trace_context tr) as [h|e]; [|done]. simpl.
  by destruct (suppress_auto_http_instrumentation tr) as [token|e].
Qed.

Lemma on_request_body_failure env self w :
  ordinary_failures env self w ->
  match on_request_body env self w with
  | (Returns _, _) => True
  | (Raises e, w1) => is_Exception e = true /\ warnings w1 = warnings w
  end.
Proof.
  intros (Henabled & Himpl & Hnamer & Htracer & Hplugin & Hcore).
  rewrite on_request_body_unfold. cbv zeta.
  destruct (settings_tracing_enabled env) as [tracing_enabled|e]; [|done].
  destruct (wants_tracing tracing_enabled w); [|done].
  destruct (settings_tracing_implementation env) as [[impl|]|e]; [| |done].
  - destruct (call_namer self w _) as [span_name|e]; [|done].
    destruct (Hplugin impl eq_refl) as [Hnew Hheader].
    exact (start_plugin_span_failure env impl span_name _
             (with_options (mkOptions None None None) w) Hnew Hheader).
  - destruct (call_namer self w _) as [span_name|e]; [|done].
    exact (start_core_span_failure env span_name _
             (with_options (mkOptions None None None) w) Htracer Hcore).
Qed.

(** C8, as stated, fails in two ways.  An exception that is not an
    instance of [Exception] (here [KeyboardInterrupt], raised while the
    tracer is fetched) is not caught: it leaves [on_request].  And after
    a failure that is caught the call does not go on as if tracing had
    been skipped: when the tracer fails in
    [_suppress_auto_http_instrumentation], the warning is logged, yet the
    span is stored in the context, still open, and the trace header is
    in the request. *)
Lemma on_request_failure_is_not_skipping :
  (on_request interrupted_environment sample_policy sample_world).1
  = Raises KeyboardInterrupt
  /\ (on_request half_started_environment sample_policy sample_world).1
     = Returns tt
  /\ warnings (on_request half_started_environment sample_policy sample_world).2
     = ["Unable to start network span."]
  /\ span_of_request
       (on_request half_started_environment sample_policy sample_world).2
     = Some 0%nat
  /\ times_ended
       (on_request half_started_environment sample_policy sample_world).2 0
     = Some 0%nat
  /\ header_get ascii_lower
       (headers (request_http (request
          (on_request half_started_environment sample_policy sample_world).2)))
       "traceparent"
     = Some "00-1-2-01".
Proof. repeat split; by vm_compute. Qed.

(** C8, amended.  When whatever the settings, the namer, the plugin and
    the tracer raise is an instance of [Exception], [on_request] returns
    normally; if starting the span failed, the warning is the one thing
    logged since the call began; and the request goes on with its method,
    its URL and every header it had. *)
Theorem on_request_catches_exceptions (env : environment) (self : policy)
    (w : world) :
  ordinary_failures env self w ->
  let r := on_request env self w in
  r.1 = Returns tt
  /\ ((on_request_body env self w).1 <> Returns tt ->
      warnings r.2 = warnings w ++ ["Unable to start network span."])
  /\ request_line r.2 = request_line w
  /\ (forall key,
        is_Some (headers (request_http (request w)) !! key) ->
        is_Some (headers (request_http (request r.2)) !! key)).
Proof.
  intros Hordinary r.
  destruct (on_request_request_kept env self w) as [Hline Hheaders].
  split; [|split; [|by split]]; subst r; unfold on_request;
    pose proof (on_request_body_failure env self w Hordinary) as Hbody;
    destruct (on_request_body env self w) as [[[]|e] w1]; simpl in *;
    try done; destruct Hbody as [-> Hwarnings]; simpl; [done|].
  intros _. by rewrite Hwarnings.
Qed.

Lemma on_request_catches_exceptions_witness :
  (on_request broken_environment sample_policy sample_world).1 = Returns tt
  /\ warnings (on_request broken_environment sample_policy sample_world).2
     = ["Unable to start network span."].
Proof.
  assert (ordinary_failures broken_environment sample_policy sample_world)
    as Hordinary.
  { do 5 (split; [done|]). intros tr [= <-]. by repeat split. }
  destruct (on_request_catches_exceptions broken_environment sample_policy
              sample_world Hordinary) as (Hreturns & Hwarning & _).
  split; [exact Hreturns|]. apply Hwarning. by vm_compute.
Defined.

End TracingHandler.
Section TracingEndSpan.
Import Tracing.
Local Open Scope Z_scope.

Lemma end_span_no_span env response exc_info w :
  context (request w) !! TRACING_CONTEXT = None ->
  end_span env response exc_info w = (Returns tt, w).
Proof. intros Hctx. unfold end_span, bind, get. simpl. by rewrite Hctx. Qed.

(** [_set_http_client_span_attributes] when the URL is parsed, and when
    it is not. *)
Lemma set_http_client_span_attributes_parsed env span r response w host p :
  (exists parsed_url,
     urlparse env (url r) = Returns parsed_url
     /\ hostname parsed_url = host /\ port parsed_url = Returns p) ->
  _set_http_client_span_attributes env span r response w
  = set_attributes span
      (http_client_span_attributes (str_lower env) r host p response) w.
Proof.
  intros (parsed_url & Hparse & <- & Hport).
  unfold _set_http_client_span_attributes, bind, call.
  by rewrite Hparse, Hport.
Qed.

Lemma set_http_client_span_attributes_raises env span r response w e :
  urlparse env (url r) = Raises e
  \/ (exists parsed_url,
        urlparse env (url r) = Returns parsed_url
        /\ port parsed_url = Raises e) ->
  _set_http_client_span_attributes env span r response w = (Raises e, w).
Proof.
  unfold _set_http_client_span_attributes, bind, call.
  intros [Hparse | (parsed_url & Hparse & Hport)]; rewrite Hparse; [done|].
  by rewrite Hport.
Qed.

Lemma http_attributes_request lower r host p response :
  http_client_span_attributes lower r host p response !! _HTTP_REQUEST_METHOD
  = Some (PStr (method r))
  /\ http_client_span_attributes lower r host p response !! _URL_FULL
     = Some (PStr (url r)).
Proof.
  unfold http_client_span_attributes.
  split; repeat case_match;
    rewrite ?lookup_insert_ne by done;
    by rewrite ?lookup_insert_eq, ?lookup_singleton_eq.
Qed.

(** What [end_span] does to the span held by the request: a plugin span
    always, an OpenTelemetry span when the URL is parsed. *)
Lemma end_span_ends env response exc_info w ref s host p :
  context (request w) !! TRACING_CONTEXT = Some (PSpan ref) ->
  spans w !! ref = Some s ->
  (span_is_plugin s = false -> url_parsed env w host p) ->
  exists s',
    spans (end_span env response exc_info w).2 !! ref = Some s'
    /\ request (end_span env response exc_info w).2 = request w
    /\ span_ended s' = S (span_ended s)
    /\ span_is_plugin s' = span_is_plugin s
    /\ match exc_info with
       | Some info => span_exit s' = Some info
       | None => span_exit s' = span_exit s
       end
    /\ (span_is_plugin s = true ->
        span_http s' = Some (request_http (request w), response))
    /\ (span_is_plugin s = false ->
        span_attributes s'
        = ended_attributes env w host p response exc_info (span_attributes s)).
Proof.
  intros Hctx Hs Hurl. unfold end_span, bind, get. simpl. rewrite Hctx. simpl.
  rewrite Hs. simpl. destruct (span_is_plugin s) eqn:Hplugin.
  - rewrite add_attributes_run.
    destruct exc_info as [info|]; simpl;
      repeat case_match; simpl;
      rewrite !list_lookup_alter_eq, Hs; simpl;
      (eexists; split; [reflexivity|]); simpl; done.
  - rewrite (set_http_client_span_attributes_parsed env ref _ response w host p)
      by (by apply Hurl).
    destruct exc_info as [[exception_type|]|]; simpl;
      repeat case_match; simpl;
      rewrite !list_lookup_alter_eq, Hs; simpl;
      (eexists; split; [reflexivity|]); simpl; done.
Qed.

(** On an OpenTelemetry span whose request has a URL that cannot be
    parsed, [end_span] raises before it has touched anything. *)
Lemma end_span_unparsed env response exc_info w ref s e :
  context (request w) !! TRACING_CONTEXT = Some (PSpan ref) ->
  spans w !! ref = Some s ->
  span_is_plugin s = false ->
  urlparse env (url (request_http (request w))) = Raises e
  \/ (exists parsed_url,
        urlparse env (url (request_http (request w))) = Returns parsed_url
        /\ port parsed_url = Raises e) ->
  end_span env response exc_info w = (Raises e, w).
Proof.
  intros Hctx Hs Hnative Hurl. unfold end_span, bind, get. simpl.
  rewrite Hctx. simpl. rewrite Hs. simpl. rewrite Hnative.
  by rewrite (set_http_client_span_attributes_raises env ref _ response w e).
Qed.

(** *** The attributes of the HTTP client span *)

Lemma http_attributes_error lower r host p response :
  400 <= status_code response ->
  http_client_span_attributes lower r host p (Some response) !! _ERROR_TYPE
  = Some (PStr (str (status_code response)))
  /\ http_client_span_attributes lower r host p (Some response)
       !! _HTTP_RESPONSE_STATUS_CODE
     = Some (PInt (status_code response)).
Proof.
  intros Hstatus. unfold http_client_span_attributes.
  assert (truthy (PInt (status_code response)) = true) as ->.
  { simpl. destruct (Z.eqb_spec (status_code response) 0); [lia | done]. }
  destruct (Z.geb_spec (status_code response) 400); [|lia].
  split; [by rewrite lookup_insert_eq|].
  by rewrite lookup_insert_ne, lookup_insert_eq.
Qed.

Lemma http_attributes_no_error lower r host p response :
  (forall rsp, response = Some rsp -> status_code rsp < 400) ->
  http_client_span_attributes lower r host p response !! _ERROR_TYPE = None.
Proof.
  intros Hstatus. unfold http_client_span_attributes.
  assert (forall m : gmap string pyobj, m !! _ERROR_TYPE = None ->
            match response with
            | Some response =>
                if truthy (PInt (status_code response)) then
                  if status_code response >=? 400
                  then <[_ERROR_TYPE := PStr (str (status_code response))]>
                         (<[_HTTP_RESPONSE_STATUS_CODE :=
                              PInt (status_code response)]> m)
                  else <[_HTTP_RESPONSE_STATUS_CODE :=
                           PInt (status_code response)]> m
                else m
            | None => m
            end !! _ERROR_TYPE = None) as Hlast.
  { intros m Hm. destruct response as [rsp|]; [|done].
    specialize (Hstatus rsp eq_refl).
    destruct (truthy _); [|done].
    destruct (Z.geb_spec (status_code rsp) 400); [lia|].
    by rewrite lookup_insert_ne. }
  apply Hlast.
  repeat case_match; rewrite ?lookup_insert_ne by done; done.
Qed.

Lemma end_span_attributes_no_error lower ctx r response :
  end_span_attributes lower ctx r response !! _ERROR_TYPE = None.
Proof.
  unfold end_span_attributes.
  repeat case_match; rewrite ?lookup_insert_ne by done; done.
Qed.

Lemma end_span_attributes_no_status lower ctx r response :
  end_span_attributes lower ctx r response !! _HTTP_RESPONSE_STATUS_CODE = None.
Proof.
  unfold end_span_attributes.
  repeat case_match; rewrite ?lookup_insert_ne by done; done.
Qed.

(** C9. When the policy ends an OpenTelemetry span on a response, and
    the URL of the request can be parsed ([urlparse] and the read of its
    port return): if the status code is at least 400, the span gets
    [error.type], the status code as [str] renders it, next to
    [http.response.status_code]; if the status code is below 400 the
    dictionary of HTTP attributes has no [error.type] and the span's
    [error.type] is left as it was. *)
Theorem error_type_attribute_on_response (env : environment) (w : world)
    (ref : nat) (s : span_state) (response : http_response)
    (parsed_hostname : option string) (parsed_port : option Z) :
  context (request w) !! TRACING_CONTEXT = Some (PSpan ref) ->
  spans w !! ref = Some s ->
  span_is_plugin s = false ->
  url_parsed env w parsed_hostname parsed_port ->
  let w' := (on_response env response w).2 in
  (400 <= status_code response ->
     span_attribute w' ref _ERROR_TYPE
     = Some (PStr (str (status_code response)))
     /\ span_attribute w' ref _HTTP_RESPONSE_STATUS_CODE
        = Some (PInt (status_code response)))
  /\ (status_code response < 400 ->
      http_client_span_attributes (str_lower env) (request_http (request w))
        parsed_hostname parsed_port (Some response) !! _ERROR_TYPE = None
      /\ span_attribute w' ref _ERROR_TYPE = span_attribute w ref _ERROR_TYPE).
Proof.
  intros Hctx Hs Hnative Hurl w'.
  destruct (end_span_ends env (Some response) None w ref s parsed_hostname
              parsed_port Hctx Hs (fun _ => Hurl))
    as (s' & Hs' & _ & _ & _ & _ & _ & Hattrs).
  specialize (Hattrs Hnative). unfold ended_attributes in Hattrs.
  assert (forall key, span_attribute w' ref key = span_attributes s' !! key)
    as Hw'.
  { intros key. unfold span_attribute, w', on_response. by rewrite Hs'. }
  assert (forall key, span_attribute w ref key = span_attributes s !! key)
    as Hw.
  { intros key. unfold span_attribute. by rewrite Hs. }
  split.
  - intros Hstatus.
    destruct (http_attributes_error (str_lower env) (request_http (request w))
                parsed_hostname parsed_port response Hstatus)
      as [Herror Hcode].
    rewrite !Hw', Hattrs. split.
    + rewrite lookup_union_r by apply end_span_attributes_no_error.
      by apply lookup_union_Some_l.
    + rewrite lookup_union_r by apply end_span_attributes_no_status.
      by apply lookup_union_Some_l.
  - intros Hstatus.
    assert (http_client_span_attributes (str_lower env)
              (request_http (request w)) parsed_hostname parsed_port
              (Some response) !! _ERROR_TYPE = None) as Hnone.
    { apply http_attributes_no_error. by intros rsp [= <-]. }
    split; [done|].
    rewrite Hw', Hw, Hattrs.
    rewrite lookup_union_r by apply end_span_attributes_no_error.
    by rewrite lookup_union_r.
Qed.

Lemma error_type_attribute_on_response_witness :
  span_attribute
    (on_response sample_environment not_found_response
       (on_request sample_environment sample_policy sample_world).2).2
    0 _ERROR_TYPE
  = Some (PStr "404")
  /\ span_attribute
       (on_response sample_environment not_found_response
          (on_request sample_environment sample_policy sample_world).2).2
       0 _HTTP_RESPONSE_STATUS_CODE
     = Some (PInt 404).
Proof.
  refine (proj1 (error_type_attribute_on_response sample_environment
                   (on_request sample_environment sample_policy sample_world).2
                   0 (mkSpan "GET" false ∅ None 0 None) not_found_response
                   (Some "example.org") None _ _ _ _) _).
  - by vm_compute.
  - by vm_compute.
  - reflexivity.
  - eexists. split; [by vm_compute|]. by split.
  - by vm_compute.
Defined.

Example ok_response_sets_no_error_type :
  span_attribute
    (on_response sample_environment ok_response
       (on_request sample_environment sample_policy sample_world).2).2
    0 _ERROR_TYPE
  = None
  /\ span_attribute
       (on_response sample_environment ok_response
          (on_request sample_environment sample_policy sample_world).2).2
       0 _HTTP_RESPONSE_STATUS_CODE
     = Some (PInt 200).
Proof. split; by vm_compute. Qed.

End TracingEndSpan.
Section TracingLeaks.
Import Tracing.

(** C5.  Three calls on which a span that [on_request] started is not
    closed exactly once.
    - The port of the URL is out of range: the span is stored, and both
      [on_response] and [on_exception] raise [ValueError] from the read
      of the port, before the span is ended; it stays open.
    - The tracer fails after the span was started: the handler of
      [on_request] drops the span without ending it; it is not in the
      context, so neither [on_response] nor [on_exception] touches it.
    - A call that switches tracing on for itself is sent twice: the
      first [on_request] pops the tracing options, so the second starts
      no span, and the second [on_response] ends the span of the first
      attempt once more. *)
Theorem span_not_closed_exactly_once :
  (let w1 := (on_request sample_environment sample_policy bad_port_world).2 in
   span_of_request w1 = Some 0%nat
   /\ times_ended w1 0 = Some 0%nat
   /\ on_response sample_environment ok_response w1 = (Raises ValueError, w1)
   /\ on_exception sample_environment (Some (exc_class RuntimeError)) w1
      = (Raises ValueError, w1))
  /\ (let w1 := (on_request broken_environment sample_policy sample_world).2 in
      spans w1 = [mkSpan "GET" false ∅ None 0 None]
      /\ span_of_request w1 = None
      /\ on_response broken_environment ok_response w1 = (Returns tt, w1)
      /\ on_exception broken_environment (Some (exc_class RuntimeError)) w1
         = (Returns tt, w1))
  /\ (let w1 := (on_request quiet_environment sample_policy opted_in_world).2 in
      let w2 := (on_response quiet_environment unavailable_response w1).2 in
      let w3 := (on_request quiet_environment sample_policy w2).2 in
      let w4 := (on_response quiet_environment ok_response w3).2 in
      span_of_request w1 = Some 0%nat
      /\ times_ended w2 0 = Some 1%nat
      /\ length (spans w3) = 1%nat
      /\ times_ended w4 0 = Some 2%nat).
Proof. repeat split; by vm_compute. Qed.

End TracingLeaks.
(* ===================================================================== *)
(** * Further properties of the Avro decoder                              *)
(* ===================================================================== *)

Section AvroReads.
Import Avro.
Local Open Scope Z_scope.

Lemma read_unfold n d :
  read n d
  = if n <? 0 then Raise AssertionError
    else
      let input_bytes := take (Z.to_nat n) (unread d) in
      if (0 <? n) && (len input_bytes =? 0) then Raise StopIteration
      else if len input_bytes =? n
           then Ok (input_bytes, mkReader (buf d) (pos d + len input_bytes))
           else Raise AssertionError.
Proof.
  unfold read. destruct (n <? 0); [done|].
  unfold bind, reader_read, ret, raise, unread, len. simpl.
  by repeat destruct (_ =? _); destruct (0 <? n).
Qed.

Lemma read_one_next d c rest :
  unread d = c :: rest -> read 1 d = Ok ([c], mkReader (buf d) (pos d + 1)).
Proof. intros Hd. rewrite read_unfold, Hd. reflexivity. Qed.

Lemma read_one_end d : unread d = [] -> read 1 d = Raise StopIteration.
Proof. intros Hd. rewrite read_unfold, Hd. reflexivity. Qed.

Lemma unread_next B p c rest :
  0 <= p -> unread (mkReader B p) = c :: rest ->
  unread (mkReader B (p + 1)) = rest.
Proof.
  unfold unread. simpl. intros Hp Hd.
  replace (Z.to_nat (p + 1)) with (Z.to_nat p + 1)%nat by lia.
  by rewrite <- drop_drop, Hd.
Qed.

(** *** [skip_long] against [read_long] *)

Lemma skip_long_loop_forgets budget : forall b n shift d,
  skip_long_loop budget b d = forget (read_long_loop budget b n shift d).
Proof.
  induction budget as [|budget IH]; intros b n shift d; simpl;
    destruct (Z.land b 128 =? 0); try done.
  unfold bind. destruct (read 1 d) as [[bs d1]| |]; try done.
  destruct bs as [|c [|c' bs]]; try done. simpl. apply IH.
Qed.

(** X2. On every reader, well-formed input or not, [skip_long] does
    what [read_long] does with the value dropped: the same position
    when it returns, the same exception when it raises. *)
Theorem skip_long_forgets_read_long (d : reader) :
  skip_long d = forget (read_long d).
Proof.
  unfold skip_long, read_long, bind.
  destruct (read 1 d) as [[bs d1]| |]; try done.
  destruct bs as [|c [|c' bs]]; try done. simpl.
  apply skip_long_loop_forgets.
Qed.

(** *** [read_long] on arbitrary input *)

Lemma read_long_loop_result rest : forall c budget n shift B p,
  0 <= p -> unread (mkReader B p) = rest -> (length rest < budget)%nat ->
  read_long_loop budget (byte_val c) n shift (mkReader B p)
  = match varint_tail c rest with
    | Some e => Ok (unzigzag (Z.lor n (accumulate shift e)),
                    mkReader B (p + len e))
    | None => Raise StopIteration
    end.
Proof.
  induction rest as [|c' rest IH]; intros c budget n shift B p Hp Hd Hlen;
    (destruct budget as [|budget]; [lia|]); simpl;
    unfold continuation; destruct (Z.land (byte_val c) 128 =? 0) eqn:Hc; simpl.
  - unfold ret, len. simpl. by rewrite Z.lor_0_r, Z.add_0_r.
  - unfold bind. by rewrite (read_one_end _ Hd).
  - unfold ret, len. simpl. by rewrite Z.lor_0_r, Z.add_0_r.
  - unfold bind. rewrite (read_one_next _ _ _ Hd). simpl.
    rewrite (IH c' budget _ _ B (p + 1)); [|lia|by eapply unread_next|simpl in Hlen; lia].
    destruct (varint_tail c' rest) as [e|]; simpl; [|done].
    rewrite Z.lor_assoc. do 3 f_equal. unfold len. simpl. lia.
Qed.

Lemma varint_tail_Some c : forall rest e,
  varint_tail c rest = Some e ->
  varint (c :: e) /\ take (length e) rest = e.
Proof.
  intros rest. revert c. induction rest as [|c' rest IH]; intros c e; simpl;
    destruct (continuation c) eqn:Hc; try done.
  - intros [= <-]. split; [by apply varint_last | done].
  - destruct (varint_tail c' rest) as [e'|] eqn:He'; [|done].
    intros [= <-]. destruct (IH _ _ He') as [Hv Htake].
    split; [by apply varint_more|]. simpl. by rewrite Htake.
  - intros [= <-]. split; [by apply varint_last | done].
Qed.

Lemma varint_tail_None c : forall rest,
  varint_tail c rest = None ->
  Forall (fun c => continuation c = true) (c :: rest).
Proof.
  intros rest. revert c. induction rest as [|c' rest IH]; intros c; simpl;
    destruct (continuation c) eqn:Hc; try done.
  - intros _. by repeat constructor.
  - destruct (varint_tail c' rest) as [e'|] eqn:He'; [done|].
    intros _. constructor; [done|]. by apply IH.
Qed.

(** X3. Whatever the input, [read_long] either returns, and then the
    bytes it consumed are a well-formed varint of the value returned, or
    raises [StopIteration], and then every byte left has the continuation
    bit set (the varint is cut short by the end of the input). *)
Theorem read_long_result (d : reader) :
  0 <= pos d ->
  match read_long d with
  | Ok (v, d') =>
      exists e,
        varint e /\ take (length e) (unread d) = e
        /\ v = varint_value e /\ d' = mkReader (buf d) (pos d + len e)
  | Raise x =>
      x = StopIteration /\ Forall (fun c => continuation c = true) (unread d)
  | NoFuel => False
  end.
Proof.
  intros Hpos. destruct d as [B p]. simpl in Hpos.
  unfold read_long, bind. cbn [buf].
  destruct (unread (mkReader B p)) as [|c rest] eqn:Hd.
  - rewrite (read_one_end _ Hd). split; [done | constructor].
  - rewrite (read_one_next _ _ _ Hd). simpl.
    rewrite (read_long_loop_result rest c _ _ _ B (p + 1));
      [|lia|by eapply unread_next|].
    + destruct (varint_tail c rest) as [e|] eqn:He.
      * destruct (varint_tail_Some _ _ _ He) as [Hv Htake].
        exists (c :: e). split; [done|]. split; [by simpl; rewrite Htake|].
        split.
        -- unfold varint_value. simpl. by rewrite Z.shiftl_0_r.
        -- f_equal. unfold len. simpl. lia.
      * split; [done|]. by apply varint_tail_None.
    + assert (length (c :: rest) <= length B)%nat as Hle.
      { rewrite <- Hd. unfold unread. rewrite length_drop. simpl.
        apply Nat.le_sub_l. }
      simpl in Hle. lia.
Qed.

Lemma read_long_result_witness :
  0 <= pos (mkReader [xac; x02; xff] 0)
  /\ exists e,
       varint e /\ take (length e) [xac; x02; xff] = e
       /\ 150 = varint_value e
       /\ mkReader [xac; x02; xff] 2 = mkReader [xac; x02; xff] (0 + len e).
Proof.
  split; [done|].
  exact (read_long_result (mkReader [xac; x02; xff] 0) ltac:(done)).
Defined.

(** *** The zig-zag formula *)

(** X4. The value [read_long] computes from the accumulator: an even
    accumulator [2k] gives [k], an odd one [2k+1] gives [-(k+1)]; so
    different non-negative accumulators give different integers. *)
Theorem unzigzag_values :
  (forall k, unzigzag (2 * k) = k)
  /\ (forall k, unzigzag (2 * k + 1) = - (k + 1))
  /\ (forall a b, 0 <= a -> 0 <= b -> unzigzag a = unzigzag b -> a = b).
Proof.
  assert (forall k, unzigzag (2 * k) = k) as Heven.
  { intros k. unfold unzigzag. rewrite land_one, shiftr_one.
    rewrite (Z.mul_comm 2), Z.div_mul, Z_mod_mult by lia. apply Z.lxor_0_r. }
  assert (forall k, unzigzag (2 * k + 1) = - (k + 1)) as Hodd.
  { intros k. unfold unzigzag. rewrite land_one, shiftr_one.
    replace (2 * k + 1) with (1 + k * 2) by lia.
    rewrite Z.div_add, Z_mod_plus_full by lia.
    change (1 `div` 2) with 0. change (1 `mod` 2) with 1.
    rewrite Z.add_0_l. change (- (1)) with (-1).
    rewrite Z.lxor_m1_r. unfold Z.lnot. lia. }
  split; [done|]. split; [done|].
  intros a b Ha Hb.
  rewrite (Z.div_mod a 2), (Z.div_mod b 2) by lia.
  pose proof (Z.mod_pos_bound a 2 ltac:(lia)) as Ha2.
  pose proof (Z.mod_pos_bound b 2 ltac:(lia)) as Hb2.
  pose proof (Z.div_pos a 2 Ha ltac:(lia)) as Hqa.
  pose proof (Z.div_pos b 2 Hb ltac:(lia)) as Hqb.
  assert (a `mod` 2 = 0 \/ a `mod` 2 = 1) as [-> | ->] by lia;
    assert (b `mod` 2 = 0 \/ b `mod` 2 = 1) as [-> | ->] by lia;
    rewrite ?Z.add_0_r, ?Heven, ?Hodd; lia.
Qed.

End AvroReads.

Section AvroSkips.
Import Avro.
Local Open Scope Z_scope.

(** X6. A negative length prefix: [read_bytes] fails its assertion,
    whereas [skip_bytes] takes it as a distance and moves the position
    back by that much ([ValueError] from the reader if that would be
    before the start of the input).  The same holds for a fixed schema of
    negative size.  The offsets aimed at are taken within the range of a
    signed 64-bit integer, beyond which [io.BytesIO.seek] raises
    [OverflowError] instead. *)
Theorem negative_length_read_and_skip (v pre post : list byte) (size : Z) :
  varint v -> varint_value v < 0 -> size < 0 ->
  - 2 ^ 63 <= len pre + len v + varint_value v < 2 ^ 63 ->
  - 2 ^ 63 <= len pre + size < 2 ^ 63 ->
  let d := at_start pre v post in
  read_bytes d = Raise AssertionError
  /\ skip_bytes d
     = (if len pre + len v + varint_value v <? 0 then Raise ValueError
        else Ok (tt, mkReader (buf d) (len pre + len v + varint_value v)))
  /\ (forall fuel, read_data (S fuel) (SFixed size) d = Raise AssertionError)
  /\ (forall fuel,
        skip_data (S fuel) (SFixed size) d
        = (if len pre + size <? 0 then Raise ValueError
           else Ok (tt, mkReader (buf d) (len pre + size)))).
Proof.
  intros Hv Hneg Hsize _ _ d. subst d. split; [|split; [|split]].
  - unfold read_bytes, bind. rewrite (read_long_consumes v Hv).
    by destruct (Z.ltb_spec (varint_value v) 0); [|lia].
  - unfold skip_bytes, bind. by rewrite (read_long_consumes v Hv).
  - intros fuel. cbn [read_data]. unfold read_fixed, bind.
    rewrite read_unfold. by destruct (Z.ltb_spec size 0); [|lia].
  - intros fuel. reflexivity.
Qed.

Lemma negative_length_read_and_skip_witness :
  read_bytes (mkReader [x07; x08; x03] 2) = Raise AssertionError
  /\ skip_bytes (mkReader [x07; x08; x03] 2) = Ok (tt, mkReader [x07; x08; x03] 1).
Proof.
  pose proof (negative_length_read_and_skip [x03] [x07; x08] [] (-1)
                ltac:(by apply varint_last) ltac:(by vm_compute)
                ltac:(done) ltac:(by vm_compute) ltac:(by vm_compute))
    as (Hread & Hskip & _).
  split; [exact Hread | exact Hskip].
Defined.

(** X7. A boolean byte other than 0 and 1: [read_data] raises
    [AvroException], whereas [skip_data] steps over the byte without
    looking at it. *)
Theorem boolean_checked_by_read_only (c : byte) (pre post : list byte)
    (fuel : nat) :
  byte_val c <> 0 -> byte_val c <> 1 ->
  read_data (S fuel) SBoolean (at_start pre [c] post) = Raise AvroException
  /\ skip_data (S fuel) SBoolean (at_start pre [c] post)
     = Ok (tt, at_end pre [c] post).
Proof.
  intros H0 H1. split.
  - cbn [read_data]. unfold read_boolean, bind.
    rewrite (read_one_consumes c). simpl. unfold ret at 1.
    destruct (Z.eqb_spec (byte_val c) 1); [done|].
    by destruct (Z.eqb_spec (byte_val c) 0).
  - cbn [skip_data]. apply (skip_width_consumes 1 [c]). done.
Qed.

Lemma boolean_checked_by_read_only_witness :
  read_data 1 SBoolean (mkReader [x02] 0) = Raise AvroException
  /\ skip_data 1 SBoolean (mkReader [x02] 0) = Ok (tt, mkReader [x02] 1).
Proof.
  exact (boolean_checked_by_read_only x02 [] [] 0
           ltac:(by vm_compute) ltac:(by vm_compute)).
Defined.

(** X8. A string whose bytes are not well-formed UTF-8: [read_data]
    raises [UnicodeDecodeError], whereas [skip_data] passes over it, and
    the same bytes read under the schema bytes are returned as they
    are. *)
Theorem utf8_checked_by_read_only (e payload pre post : list byte)
    (fuel : nat) :
  bytes_encoding e payload -> utf8_valid payload = false ->
  read_data (S fuel) SString (at_start pre e post) = Raise UnicodeDecodeError
  /\ skip_data (S fuel) SString (at_start pre e post) = Ok (tt, at_end pre e post)
  /\ read_data (S fuel) SBytes (at_start pre e post)
     = Ok (VBytes payload, at_end pre e post).
Proof.
  intros He Hinvalid. split; [|split].
  - cbn [read_data]. unfold read_utf8, bind at 1 2.
    rewrite (read_bytes_consumes e payload He). by rewrite Hinvalid.
  - cbn [skip_data]. by eapply skip_bytes_consumes.
  - cbn [read_data].
    by apply (consumes_map read_bytes VBytes), read_bytes_consumes.
Qed.

Lemma utf8_checked_by_read_only_witness :
  read_data 1 SString (mkReader [x02; xff] 0) = Raise UnicodeDecodeError
  /\ skip_data 1 SString (mkReader [x02; xff] 0) = Ok (tt, mkReader [x02; xff] 2)
  /\ read_data 1 SBytes (mkReader [x02; xff] 0)
     = Ok (VBytes [xff], mkReader [x02; xff] 2).
Proof.
  refine (utf8_checked_by_read_only [x02; xff] [xff] [] [] 0 _ _).
  - exists [x02]. split; [by apply varint_last|]. by split.
  - reflexivity.
Defined.

End AvroSkips.

Section AvroForward.
Import Avro.
Local Open Scope Z_scope.

Lemma forward_ret {A} (a : A) : forward (ret a).
Proof. intros d a' d' [= _ <-]. split; [done | lia]. Qed.

Lemma forward_raise {A} e : forward (@raise A e).
Proof. by intros d a d'. Qed.

Lemma forward_bind {A B} (c : M A) (k : A -> M B) :
  forward c -> (forall a, forward (k a)) -> forward (bind c k).
Proof.
  intros Hc Hk d b d'. unfold bind.
  destruct (c d) as [[a d1]| |] eqn:Hcd; try done.
  intros Hkd. destruct (Hc _ _ _ Hcd) as [Hbuf1 Hpos1].
  destruct (Hk _ _ _ _ Hkd) as [Hbuf2 Hpos2]. split; [congruence | lia].
Qed.

Lemma forward_read n : forward (read n).
Proof.
  intros d bs d'. rewrite read_unfold. cbv zeta.
  repeat case_match; try done. intros [= _ <-]. simpl. unfold len.
  split; [done | lia].
Qed.

Lemma forward_ord bs : forward (ord bs).
Proof.
  destruct bs as [|c [|c' bs]];
    [apply forward_raise | apply forward_ret | apply forward_raise].
Qed.

Lemma forward_read_long_loop budget : forall b n shift,
  forward (read_long_loop budget b n shift).
Proof.
  induction budget as [|budget IH]; intros b n shift; simpl;
    destruct (_ =? _); try apply forward_ret; [done|].
  apply forward_bind; [apply forward_read|]. intros bs.
  apply forward_bind; [apply forward_ord|]. intros b'. apply IH.
Qed.

Lemma forward_read_long : forward read_long.
Proof.
  intros d v d'. unfold read_long.
  apply forward_bind; [apply forward_read|]. intros bs.
  apply forward_bind; [apply forward_ord|]. intros b.
  apply forward_read_long_loop.
Qed.

Lemma forward_read_bytes : forward read_bytes.
Proof.
  apply forward_bind; [apply forward_read_long|]. intros n.
  destruct (_ <? _); [apply forward_raise | apply forward_read].
Qed.

Lemma forward_read_utf8 : forward read_utf8.
Proof.
  apply forward_bind; [apply forward_read_bytes|]. intros bs.
  destruct (utf8_valid bs); [apply forward_ret | apply forward_raise].
Qed.

Lemma forward_read_boolean : forward read_boolean.
Proof.
  apply forward_bind; [apply forward_read|]. intros bs.
  apply forward_bind; [apply forward_ord|]. intros b.
  repeat destruct (_ =? _); try apply forward_ret. apply forward_raise.
Qed.

Lemma forward_getitem {A} (l : list A) i : forward (getitem l i).
Proof.
  unfold getitem. destruct (_ <? _); [apply forward_raise|].
  destruct (l !! _); [apply forward_ret | apply forward_raise].
Qed.

Lemma forward_map {A B} (c : M A) (f : A -> B) :
  forward c -> forward (x <~ c ;; ret (f x)).
Proof. intros Hc. apply forward_bind; [done|]. intros a. apply forward_ret. Qed.

Section Callbacks.
Variable rd : schema -> M value.
Hypothesis Hrd : forall s, forward (rd s).

Lemma forward_read_array_items items n : forall acc,
  forward (read_array_items rd items n acc).
Proof.
  induction n as [|n IH]; intros acc; simpl; [apply forward_ret|].
  apply forward_bind; [apply Hrd|]. intros v. apply IH.
Qed.

Lemma forward_read_array_blocks fuel items : forall c acc,
  forward (read_array_blocks rd fuel items c acc).
Proof.
  induction fuel as [|fuel IH]; intros c acc; simpl;
    destruct (c =? 0); try apply forward_ret; [done|].
  apply forward_bind.
  { destruct (c <? 0); [|apply forward_ret].
    apply forward_bind; [apply forward_read_long|]. intros _.
    apply forward_ret. }
  intros c'. apply forward_bind; [apply forward_read_array_items|].
  intros l. apply forward_bind; [apply forward_read_long|]. intros c''.
  apply IH.
Qed.

Lemma forward_read_map_items values n : forall acc,
  forward (read_map_items rd values n acc).
Proof.
  induction n as [|n IH]; intros acc; simpl; [apply forward_ret|].
  apply forward_bind; [apply forward_read_utf8|]. intros key.
  apply forward_bind; [apply Hrd|]. intros v. apply IH.
Qed.

Lemma forward_read_map_blocks fuel values : forall c acc,
  forward (read_map_blocks rd fuel values c acc).
Proof.
  induction fuel as [|fuel IH]; intros c acc; simpl;
    destruct (c =? 0); try apply forward_ret; [done|].
  apply forward_bind.
  { destruct (c <? 0); [|apply forward_ret].
    apply forward_bind; [apply forward_read_long|]. intros _.
    apply forward_ret. }
  intros c'. apply forward_bind; [apply forward_read_map_items|].
  intros l. apply forward_bind; [apply forward_read_long|]. intros c''.
  apply IH.
Qed.

Lemma forward_read_record_fields fields : forall acc,
  forward (read_record_fields rd fields acc).
Proof.
  induction fields as [|[name type] fields IH]; intros acc; simpl;
    [apply forward_ret|].
  apply forward_bind; [apply Hrd|]. intros v. apply IH.
Qed.
End Callbacks.

Lemma forward_read_data fuel : forall ws, forward (read_data fuel ws).
Proof.
  induction fuel as [|fuel IH]; intros ws; [done|].
  destruct ws; cbn [read_data].
  - apply forward_ret.
  - apply forward_map, forward_read_boolean.
  - apply forward_map, forward_read_utf8.
  - apply forward_map, forward_read_long.
  - apply forward_map, forward_read_long.
  - apply forward_map, forward_read.
  - apply forward_map, forward_read.
  - apply forward_map, forward_read_bytes.
  - apply forward_map, forward_read.
  - apply forward_bind; [apply forward_read_long|]. intros i.
    destruct (_ >=? _); [apply forward_raise|].
    apply forward_map, forward_getitem.
  - apply forward_bind; [apply forward_read_long|]. intros c.
    apply forward_map, forward_read_array_blocks, IH.
  - apply forward_bind; [apply forward_read_long|]. intros c.
    apply forward_map, forward_read_map_blocks, IH.
  - apply forward_bind; [apply forward_read_long|]. intros i.
    destruct (_ >=? _); [apply forward_raise|].
    apply forward_bind; [apply forward_getitem | apply IH].
  - apply forward_map, forward_read_record_fields, IH.
  - apply forward_raise.
Qed.

(** X9. Reading never rewinds and never touches the buffer: when
    [read_data] returns, for any schema and any input, the buffer is the
    one it was given and the position is at or after the one it started
    from. *)
Theorem read_data_moves_forward (fuel : nat) (ws : schema) (d : reader) :
  match read_data fuel ws d with
  | Ok (_, d') => buf d' = buf d /\ pos d <= pos d'
  | _ => True
  end.
Proof.
  destruct (read_data fuel ws d) as [[v d']| |] eqn:Hread; [|done..].
  by eapply forward_read_data.
Qed.

Lemma read_data_moves_forward_witness :
  buf (mkReader [x04; x02; x6b; x02; x02; x6b; x06; x00] 8)
  = [x04; x02; x6b; x02; x02; x6b; x06; x00]
  /\ 0 <= 8.
Proof.
  exact (read_data_moves_forward 3 (SMap SLong)
           (mkReader [x04; x02; x6b; x02; x02; x6b; x06; x00] 0)).
Defined.

End AvroForward.

Section AvroDicts.
Import Avro.
Local Open Scope Z_scope.

Lemma dict_set_keys {K V} `{EqDecision K} (k : K) (v : V) (d : list (K * V)) :
  (dict_set k v d).*1 = if decide (k ∈ d.*1) then d.*1 else d.*1 ++ [k].
Proof.
  induction d as [|[k' v'] d IH]; [done|]. cbn [dict_set].
  destruct (decide (k = k')) as [->|Hne]; rewrite !fmap_cons; cbn [fst].
  - rewrite decide_True; [done | constructor].
  - rewrite IH. destruct (decide (k ∈ d.*1)) as [Hin|Hnin].
    + rewrite decide_True; [done | by constructor].
    + rewrite decide_False; [done|]. by intros [?|?]%elem_of_cons.
Qed.

Lemma dict_set_NoDup {K V} `{EqDecision K} (k : K) (v : V) (d : list (K * V)) :
  NoDup d.*1 -> NoDup (dict_set k v d).*1.
Proof.
  intros Hd. rewrite dict_set_keys. destruct (decide (k ∈ d.*1)); [done|].
  apply NoDup_app. split; [done|]. split; [|apply NoDup_singleton].
  intros x Hx ->%list_elem_of_singleton. done.
Qed.

Section Callbacks.
Variable rd : schema -> M value.

Lemma read_record_fields_keys fields : forall acc d r d',
  NoDup (acc.*1 ++ fields.*1) ->
  read_record_fields rd fields acc d = Ok (r, d') ->
  r.*1 = acc.*1 ++ fields.*1.
Proof.
  induction fields as [|[name type] fields IH]; intros acc d r d' Hnodup;
    simpl.
  - intros [= <- _]. by rewrite app_nil_r.
  - unfold bind at 1. destruct (rd type d) as [[v d1]| |]; try done.
    intros Hrest. simpl in Hnodup.
    assert (name ∉ acc.*1) as Hfresh.
    { apply NoDup_app in Hnodup as (_ & Hdisj & _). intros Hin.
      apply (Hdisj name Hin). constructor. }
    apply IH in Hrest; rewrite dict_set_keys, decide_False in * by done.
    + by rewrite Hrest, <- app_assoc.
    + by rewrite <- app_assoc.
Qed.

Lemma read_record_fields_NoDup fields : forall acc d r d',
  NoDup acc.*1 ->
  read_record_fields rd fields acc d = Ok (r, d') -> NoDup r.*1.
Proof.
  induction fields as [|[name type] fields IH]; intros acc d r d' Hacc; simpl.
  - by intros [= <- _].
  - unfold bind at 1. destruct (rd type d) as [[v d1]| |]; try done.
    apply IH. by apply dict_set_NoDup.
Qed.

Lemma read_map_items_NoDup values n : forall acc d m d',
  NoDup acc.*1 ->
  read_map_items rd values n acc d = Ok (m, d') -> NoDup m.*1.
Proof.
  induction n as [|n IH]; intros acc d m d' Hacc; simpl.
  - by intros [= <- _].
  - unfold bind at 1. destruct (read_utf8 d) as [[key d1]| |]; try done.
    unfold bind at 1. destruct (rd values d1) as [[v d2]| |]; try done.
    apply IH. by apply dict_set_NoDup.
Qed.

Lemma read_map_blocks_NoDup fuel values : forall c acc d m d',
  NoDup acc.*1 ->
  read_map_blocks rd fuel values c acc d = Ok (m, d') -> NoDup m.*1.
Proof.
  induction fuel as [|fuel IH]; intros c acc d m d' Hacc; simpl;
    destruct (c =? 0); try (by intros [= <- _]).
  unfold bind at 1.
  destruct ((if c <? 0 then read_long;;; ret (- c) else ret c) d)
    as [[c' d1]| |]; try done.
  unfold bind at 1.
  destruct (read_map_items rd values (Z.to_nat c') acc d1)
    as [[acc' d2]| |] eqn:Hitems; try done.
  unfold bind at 1. destruct (read_long d2) as [[c'' d3]| |]; try done.
  apply IH. by eapply read_map_items_NoDup.
Qed.
End Callbacks.

(** X10. When the field names of a record schema are distinct, the
    record that [read_data] returns has exactly one entry per field, in
    the order in which the writer's schema declares the fields. *)
Theorem read_record_keeps_declared_order (fuel : nat)
    (fields : list (string * schema)) (d : reader) :
  NoDup fields.*1 ->
  match read_data fuel (SRecord fields) d with
  | Ok (v, _) => exists r, v = VRecord r /\ r.*1 = fields.*1
  | _ => True
  end.
Proof.
  intros Hnodup. destruct fuel as [|fuel]; [done|]. cbn [read_data].
  unfold read_record, bind.
  destruct (read_record_fields (read_data fuel) fields [] d)
    as [[r d']| |] eqn:Hread; [|done..].
  exists r. split; [done|].
  by apply read_record_fields_keys in Hread.
Qed.

Lemma read_record_keeps_declared_order_witness :
  NoDup [("m", SMap SBoolean); ("e", SEnum ["A"; "B"])]%string.*1
  /\ exists r,
       VRecord [("m", VMap [([x6b], VBoolean true)]); ("e", VSymbol "B")]%string
       = VRecord r
       /\ r.*1 = ["m"; "e"]%string.
Proof.
  assert (NoDup [("m", SMap SBoolean); ("e", SEnum ["A"; "B"])]%string.*1)
    as Hnodup.
  { simpl. apply NoDup_cons. split; [|apply NoDup_singleton].
    by intros ?%list_elem_of_singleton. }
  split; [exact Hnodup|].
  exact (read_record_keeps_declared_order 4
           [("m", SMap SBoolean); ("e", SEnum ["A"; "B"])]%string
           (mkReader [x02; x02; x6b; x01; x00; x02] 0) Hnodup).
Defined.

(** X11. The dictionaries [read_data] returns have no repeated key:
    in a map a key that comes twice in the input keeps one entry (with
    the value read last), and so does a field name declared twice in a
    record. *)
Theorem decoded_dicts_have_distinct_keys (fuel : nat) (d : reader) :
  (forall values,
     match read_data fuel (SMap values) d with
     | Ok (v, _) => exists m, v = VMap m /\ NoDup m.*1
     | _ => True
     end)
  /\ (forall fields,
        match read_data fuel (SRecord fields) d with
        | Ok (v, _) => exists r, v = VRecord r /\ NoDup r.*1
        | _ => True
        end).
Proof.
  destruct fuel as [|fuel]; [done|]. split.
  - intros values. cbn [read_data]. unfold read_map, bind.
    destruct (read_long d) as [[c d1]| |]; [|done..].
    destruct (read_map_blocks (read_data fuel) fuel values c [] d1)
      as [[m d']| |] eqn:Hread; [|done..].
    exists m. split; [done|].
    eapply read_map_blocks_NoDup; [|exact Hread]. constructor.
  - intros fields. cbn [read_data]. unfold read_record, bind.
    destruct (read_record_fields (read_data fuel) fields [] d)
      as [[r d']| |] eqn:Hread; [|done..].
    exists r. split; [done|].
    eapply read_record_fields_NoDup; [|exact Hread]. constructor.
Qed.

Lemma decoded_dicts_have_distinct_keys_witness :
  exists m, VMap [([x6b], VLong 3)] = VMap m /\ NoDup m.*1.
Proof.
  exact (proj1 (decoded_dicts_have_distinct_keys 3
                  (mkReader [x04; x02; x6b; x02; x02; x6b; x06; x00] 0))
               SLong).
Defined.

(** A map written with the key k twice: one entry, the later value. *)
Example read_map_repeated_key :
  read_data 3 (SMap SLong) (mkReader [x04; x02; x6b; x02; x02; x6b; x06; x00] 0)
  = Ok (VMap [([x6b], VLong 3)],
        mkReader [x04; x02; x6b; x02; x02; x6b; x06; x00] 8).
Proof. reflexivity. Qed.

End AvroDicts.

(* ===================================================================== *)
(** * Further properties of the tracing policy                            *)
(* ===================================================================== *)

Section TracingDecision.
Import Tracing.
Local Open Scope Z_scope.

(** X12. When the call is not to be traced (it said [enabled: False],
    or it said nothing and tracing is off globally), [on_request] only
    pops the tracing options: no span, no header, no context entry, no
    warning. *)
Theorem on_request_without_tracing (env : environment) (self : policy)
    (w : world) (tracing_enabled : bool) :
  settings_tracing_enabled env = Returns tracing_enabled ->
  wants_tracing tracing_enabled w = false ->
  on_request env self w
  = (Returns tt,
     with_options
       (mkOptions None
          (opt_network_span_namer (context_options (request w)))
          (opt_tracing_attributes (context_options (request w)))) w).
Proof.
  intros Henabled Hwants. unfold wants_tracing, call_tracing_options in Hwants.
  unfold on_request, on_request_body, pop_tracing_options, set_options,
    bind, get, modify, call, ret. simpl. rewrite Henabled.
  destruct (default _ _) as [[[]|] attrs]; simpl in *; subst; done.
Qed.

Lemma on_request_without_tracing_witness :
  on_request sample_environment sample_policy
    (with_options (mkOptions (Some (mkTracingOptions (Some false) None))
                             None None) sample_world)
  = (Returns tt, sample_world).
Proof.
  exact (on_request_without_tracing sample_environment sample_policy
           (with_options (mkOptions (Some (mkTracingOptions (Some false) None))
                                    None None) sample_world)
           true eq_refl eq_refl).
Defined.

(** X13. When the call is to be traced (it said [enabled: True], also
    with tracing off globally, or it said nothing and tracing is on), no
    plugin is configured and the tracer's calls return, [on_request]
    stores a new, open OpenTelemetry span: named by the call's namer if it
    gave one and by the policy's otherwise; carrying the attributes of the
    tracing options over the base attributes (the call's
    [tracing_attributes] if given, else the policy's), the former winning
    on a shared key; the trace headers are merged into the request's
    headers and the suppression token is stored. *)
Theorem on_request_starts_core_span (env : environment) (self : policy)
    (w : world) (tracing_enabled : bool) (tr : tracer) (name : string)
    (trace_headers : list (string * string)) (token : pyobj) :
  settings_tracing_enabled env = Returns tracing_enabled ->
  wants_tracing tracing_enabled w = true ->
  settings_tracing_implementation env = Returns None ->
  call_namer self w (request_http (request w)) = Returns name ->
  get_tracer env = Returns (Some tr) ->
  start_span tr = Returns tt ->
  get_trace_context tr = Returns trace_headers ->
  suppress_auto_http_instrumentation tr = Returns token ->
  exists w',
    on_request env self w = (Returns tt, w')
    /\ span_of_request w' = Some (length (spans w))
    /\ spans w'
       = spans w
         ++ [mkSpan name false
               (default ∅ (attributes (call_tracing_options w))
                ∪ call_base_attributes self w) None 0 None]
    /\ (forall key,
          span_attribute w' (length (spans w)) key
          = match default ∅ (attributes (call_tracing_options w)) !! key with
            | Some value => Some value
            | None => call_base_attributes self w !! key
            end)
    /\ headers (request_http (request w'))
       = header_update (str_lower env) trace_headers
           (headers (request_http (request w)))
    /\ context (request w') !! _SUPPRESSION_TOKEN = Some token
    /\ warnings w' = warnings w.
Proof.
  intros Henabled Hwants Himpl Hname Htracer Hstart Hheaders Htoken.
  unfold wants_tracing in Hwants.
  unfold call_namer, call_base_attributes, call_tracing_options in *.
  unfold on_request, on_request_body, pop_tracing_options,
    pop_network_span_namer, pop_tracing_attributes, start_core_span,
    new_span, context_set, headers_update, set_options,
    bind, get, modify, call, ret. simpl.
  rewrite Henabled.
  assert (forall (X : Type) (a b : X),
            match enabled (default (mkTracingOptions None None)
                    (opt_tracing_options (context_options (request w)))) with
            | Some false => a
            | _ =>
                if negb tracing_enabled
                   && bool_decide
                        (enabled (default (mkTracingOptions None None)
                           (opt_tracing_options (context_options (request w))))
                         = None)
                then a else b
            end = b) as Hgo.
  { intros X a b.
    destruct (enabled _) as [[]|]; simpl in *; subst; try done.
    by rewrite andb_false_r. }
  rewrite Hgo. simpl. rewrite Himpl. simpl. rewrite Hname. simpl.
  rewrite Htracer. simpl. rewrite Hstart. simpl. rewrite Hheaders. simpl.
  rewrite Htoken. simpl.
  eexists. split; [reflexivity|]. simpl.
  split.
  { unfold span_of_request. simpl.
    by rewrite lookup_insert_ne, lookup_insert_eq. }
  split; [done|]. split.
  { intros key. unfold span_attribute. simpl.
    rewrite list_lookup_middle by done. simpl.
    rewrite lookup_union. by destruct (_ !! key), (_ !! key). }
  split; [done|]. split; [|done].
  by rewrite lookup_insert_eq.
Qed.

Lemma on_request_starts_core_span_witness :
  exists w',
    on_request quiet_environment sample_policy opted_in_world = (Returns tt, w')
    /\ span_of_request w' = Some 0%nat
    /\ spans w'
       = [mkSpan "GET" false
            ({[ "k" := PInt 1 ]} ∪ {[ "k" := PInt 2; "base" := PInt 3 ]})
            None 0 None]
    /\ (forall key,
          span_attribute w' 0 key
          = match ({[ "k" := PInt 1 ]} : gmap string pyobj) !! key with
            | Some value => Some value
            | None => ({[ "k" := PInt 2; "base" := PInt 3 ]}
                       : gmap string pyobj) !! key
            end)
    /\ headers (request_http (request w'))
       = header_update ascii_lower [("traceparent", "00-1-2-01")] ∅
    /\ context (request w') !! _SUPPRESSION_TOKEN = Some (PToken 0)
    /\ warnings w' = [].
Proof.
  exact (on_request_starts_core_span quiet_environment sample_policy
           opted_in_world false sample_tracer "GET"
           [("traceparent", "00-1-2-01")] (PToken 0)
           eq_refl eq_refl eq_refl eq_refl eq_refl eq_refl eq_refl eq_refl).
Defined.

End TracingDecision.

Section TracingKeeps.
Import Tracing.
Local Open Scope Z_scope.

(** X14. Whatever the environment does, [on_request] leaves the method
    and the URL of the request alone and takes no header away: every
    header the request had is still there afterwards, the trace headers
    at most replacing its value. *)
Theorem on_request_keeps_request (env : environment) (self : policy)
    (w : world) :
  request_line (on_request env self w).2 = request_line w
  /\ forall key,
       is_Some (headers (request_http (request w)) !! key) ->
       is_Some (headers (request_http (request (on_request env self w).2))
                  !! key).
Proof. exact (on_request_request_kept env self w). Qed.

(** X15. Whatever the environment does, [on_request] ends no span:
    every span that existed keeps its count of ends (a span left over
    from an earlier attempt is neither ended again nor reopened). *)
Theorem on_request_ends_no_span (env : environment) (self : policy)
    (w : world) (ref : nat) :
  times_ended w ref <> None ->
  times_ended (on_request env self w).2 ref = times_ended w ref.
Proof.
  intros Hsome. destruct (times_ended w ref) as [n|] eqn:Hn; [|done].
  by apply on_request_ends_kept.
Qed.

Lemma on_request_ends_no_span_witness :
  times_ended
    (on_request sample_environment sample_policy
       (on_response sample_environment not_found_response
          (on_request sample_environment sample_policy sample_world).2).2).2
    0
  = Some 1%nat.
Proof.
  exact (on_request_ends_no_span sample_environment sample_policy
           (on_response sample_environment not_found_response
              (on_request sample_environment sample_policy sample_world).2).2
           0 ltac:(by vm_compute)).
Defined.

End TracingKeeps.

Section TracingEnds.
Import Tracing.
Local Open Scope Z_scope.

(** For an OpenTelemetry span, either the URL of the request is parsed
    or [end_span] raises and leaves everything as it was. *)
Lemma end_span_native_cases env response exc_info w ref s :
  context (request w) !! TRACING_CONTEXT = Some (PSpan ref) ->
  spans w !! ref = Some s ->
  span_is_plugin s = false ->
  (exists parsed_hostname parsed_port,
     url_parsed env w parsed_hostname parsed_port)
  \/ (exists e, end_span env response exc_info w = (Raises e, w)).
Proof.
  intros Hctx Hs Hnative.
  destruct (urlparse env (url (request_http (request w))))
    as [parsed_url|e] eqn:Hparse.
  - destruct (port parsed_url) as [parsed_port|e] eqn:Hport.
    + left. exists (hostname parsed_url), parsed_port, parsed_url. by repeat split.
    + right. exists e. eapply end_span_unparsed; try done. right. eauto.
  - right. exists e. eapply end_span_unparsed; try done. by left.
Qed.

(** X16. [end_span] leaves the span in the context: a second call for
    the same request (here [on_response] twice, or [on_response] and
    then [on_exception]) ends the same span a second time.  For an
    OpenTelemetry span this is when the URL of the request can be
    parsed. *)
Theorem end_span_twice_ends_twice (env : environment) (w : world) (ref : nat)
    (s : span_state) (response : http_response)
    (parsed_hostname : option string) (parsed_port : option Z) :
  context (request w) !! TRACING_CONTEXT = Some (PSpan ref) ->
  spans w !! ref = Some s ->
  (span_is_plugin s = false -> url_parsed env w parsed_hostname parsed_port) ->
  let w1 := (on_response env response w).2 in
  span_of_request w1 = Some ref
  /\ (forall response',
        times_ended (on_response env response' w1).2 ref
        = Some (S (S (span_ended s))))
  /\ (forall exc_info,
        times_ended (on_exception env exc_info w1).2 ref
        = Some (S (S (span_ended s)))).
Proof.
  intros Hctx Hs Hurl w1.
  destruct (end_span_ends env (Some response) None w ref s parsed_hostname
              parsed_port Hctx Hs Hurl)
    as (s1 & Hs1 & Hrequest & Hended1 & Hplugin1 & _).
  fold (on_response env response w) in Hs1, Hrequest. fold w1 in Hs1, Hrequest.
  assert (context (request w1) !! TRACING_CONTEXT = Some (PSpan ref)) as Hctx1
    by (by rewrite Hrequest).
  assert (span_is_plugin s1 = false ->
          url_parsed env w1 parsed_hostname parsed_port) as Hurl1.
  { rewrite Hplugin1. intros Hnative. unfold url_parsed. rewrite Hrequest.
    by apply Hurl. }
  split; [unfold span_of_request; by rewrite Hctx1|]. split.
  - intros response'.
    destruct (end_span_ends env (Some response') None w1 ref s1 parsed_hostname
                parsed_port Hctx1 Hs1 Hurl1)
      as (s2 & Hs2 & _ & Hended2 & _).
    unfold on_response, times_ended. rewrite Hs2. simpl. congruence.
  - intros exc_info.
    destruct (end_span_ends env None (Some exc_info) w1 ref s1 parsed_hostname
                parsed_port Hctx1 Hs1 Hurl1)
      as (s2 & Hs2 & _ & Hended2 & _).
    unfold on_exception, times_ended. rewrite Hs2. simpl. congruence.
Qed.

Lemma end_span_twice_ends_twice_witness :
  times_ended
    (on_response sample_environment ok_response
       (on_response sample_environment not_found_response
          (on_request sample_environment sample_policy sample_world).2).2).2
    0
  = Some 2%nat.
Proof.
  refine (proj1 (proj2 (end_span_twice_ends_twice sample_environment
                          (on_request sample_environment sample_policy
                             sample_world).2
                          0 (mkSpan "GET" false ∅ None 0 None)
                          not_found_response (Some "example.org") None
                          _ _ _)) ok_response).
  - by vm_compute.
  - by vm_compute.
  - intros _. eexists. split; [by vm_compute|]. by split.
Defined.

Lemma error_type_cases (t : exc_type) :
  error_type t
  = if String.eqb (exc_module t) "builtins" || String.eqb (exc_module t) ""
    then exc_qualname t
    else (exc_module t ++ "." ++ exc_qualname t)%string.
Proof.
  unfold error_type.
  destruct (String.eqb_spec (exc_module t) "builtins"); simpl; [done|].
  by destruct (String.eqb_spec (exc_module t) "").
Qed.

(** X17. On the exception path an OpenTelemetry span, when the URL of
    the request can be parsed, gets as [error.type] the qualified name of
    the exception class: the bare [__qualname__] for a builtin,
    [module.qualname] otherwise; when there is no exception in flight
    ([exc_info] all [None]) the span's [error.type] is left as it was. *)
Theorem on_exception_error_type (env : environment) (w : world) (ref : nat)
    (s : span_state) (exc_info : option exc_type)
    (parsed_hostname : option string) (parsed_port : option Z) :
  context (request w) !! TRACING_CONTEXT = Some (PSpan ref) ->
  spans w !! ref = Some s ->
  span_is_plugin s = false ->
  url_parsed env w parsed_hostname parsed_port ->
  let w' := (on_exception env exc_info w).2 in
  span_attribute w' ref _ERROR_TYPE
  = match exc_info with
    | Some t =>
        Some (PStr (if String.eqb (exc_module t) "builtins"
                       || String.eqb (exc_module t) ""
                    then exc_qualname t
                    else (exc_module t ++ "." ++ exc_qualname t)%string))
    | None => span_attribute w ref _ERROR_TYPE
    end.
Proof.
  intros Hctx Hs Hnative Hurl w'.
  destruct (end_span_ends env None (Some exc_info) w ref s parsed_hostname
              parsed_port Hctx Hs (fun _ => Hurl))
    as (s' & Hs' & _ & _ & _ & _ & _ & Hattrs).
  specialize (Hattrs Hnative). unfold ended_attributes in Hattrs.
  unfold span_attribute, w', on_exception. rewrite Hs', Hs. simpl.
  rewrite Hattrs. destruct exc_info as [t|].
  - by rewrite lookup_insert_eq, error_type_cases.
  - rewrite lookup_union_r by apply end_span_attributes_no_error.
    rewrite lookup_union_r; [done|].
    apply http_attributes_no_error. by intros rsp.
Qed.

Lemma on_exception_error_type_witness :
  span_attribute
    (on_exception sample_environment
       (Some (mkExcType "azure.core.exceptions" "ServiceRequestError"))
       (on_request sample_environment sample_policy sample_world).2).2
    0 _ERROR_TYPE
  = Some (PStr "azure.core.exceptions.ServiceRequestError").
Proof.
  refine (on_exception_error_type sample_environment
            (on_request sample_environment sample_policy sample_world).2
            0 (mkSpan "GET" false ∅ None 0 None)
            (Some (mkExcType "azure.core.exceptions" "ServiceRequestError"))
            (Some "example.org") None _ _ _ _).
  - by vm_compute.
  - by vm_compute.
  - reflexivity.
  - eexists. split; [by vm_compute|]. by split.
Defined.

(** X18. When [end_span] gets as far as ending the span (always for a
    plugin span, for an OpenTelemetry span when the URL of the request
    can be parsed), it then detaches the suppression token exactly when
    the context holds a true token and [get_tracer] hands out a tracer.
    [get_tracer] is not guarded: if it raises, the exception leaves
    [on_response] or [on_exception], but the span is already ended by
    then. *)
Theorem end_span_detaches_token (env : environment)
    (response : option http_response) (exc_info : option (option exc_type))
    (w : world) (ref : nat) (s : span_state)
    (parsed_hostname : option string) (parsed_port : option Z) :
  context (request w) !! TRACING_CONTEXT = Some (PSpan ref) ->
  spans w !! ref = Some s ->
  (span_is_plugin s = false -> url_parsed env w parsed_hostname parsed_port) ->
  let r := end_span env response exc_info w in
  times_ended r.2 ref = Some (S (span_ended s))
  /\ match context (request w) !! _SUPPRESSION_TOKEN with
     | Some token =>
         if truthy token then
           match get_tracer env with
           | Returns (Some _) =>
               r.1 = Returns tt /\ detached r.2 = detached w ++ [token]
           | Returns None => r.1 = Returns tt /\ detached r.2 = detached w
           | Raises e => r.1 = Raises e /\ detached r.2 = detached w
           end
         else r.1 = Returns tt /\ detached r.2 = detached w
     | None => r.1 = Returns tt /\ detached r.2 = detached w
     end.
Proof.
  intros Hctx Hs Hurl r. subst r.
  unfold end_span, bind, get. simpl. rewrite Hctx. simpl.
  rewrite Hs. simpl. unfold times_ended.
  destruct (span_is_plugin s) eqn:Hplugin;
    [rewrite add_attributes_run
    |rewrite (set_http_client_span_attributes_parsed env ref _ response w
                parsed_hostname parsed_port) by (by apply Hurl)];
    destruct exc_info as [[exception_type|]|]; simpl;
    destruct (context (request w) !! _SUPPRESSION_TOKEN) as [token|]; simpl;
    try destruct (truthy token); simpl;
    try destruct (get_tracer env) as [[tr|]|e]; simpl;
    rewrite !list_lookup_alter_eq, Hs; simpl; done.
Qed.

Lemma end_span_detaches_token_witness :
  times_ended
    (on_response sample_environment ok_response
       (on_request sample_environment sample_policy sample_world).2).2 0
  = Some 1%nat
  /\ (on_response sample_environment ok_response
        (on_request sample_environment sample_policy sample_world).2).1
     = Returns tt
  /\ detached
       (on_response sample_environment ok_response
          (on_request sample_environment sample_policy sample_world).2).2
     = [PToken 0].
Proof.
  refine (end_span_detaches_token sample_environment (Some ok_response) None
            (on_request sample_environment sample_policy sample_world).2
            0 (mkSpan "GET" false ∅ None 0 None) (Some "example.org") None
            _ _ _).
  - by vm_compute.
  - by vm_compute.
  - intros _. eexists. split; [by vm_compute|]. by split.
Defined.

(** *** The attributes [end_span] writes *)

Lemma end_span_attributes_lookup lower ctx r response :
  end_span_attributes lower ctx r response !! _HTTP_RESEND_COUNT
  = (n ← ctx !! "retry_count"; if truthy n then Some n else None)
  /\ end_span_attributes lower ctx r response !! _REQUEST_ID_ATTR
     = (id ← header_get lower (headers r) _REQUEST_ID;
        if String.eqb id "" then None else Some (PStr id))
  /\ end_span_attributes lower ctx r response !! _RESPONSE_ID_ATTR
     = (rsp ← response;
        id ← header_get lower (response_headers rsp) _RESPONSE_ID;
        Some (PStr id)).
Proof.
  unfold end_span_attributes.
  destruct (ctx !! "retry_count") as [n|]; simpl;
    [destruct (truthy n) eqn:Hn|];
    (destruct (header_get lower (headers r) _REQUEST_ID) as [id|]; simpl;
       [destruct (String.eqb id "") eqn:Hid|]);
    (destruct response as [rsp|]; simpl;
       [destruct (header_get lower (response_headers rsp) _RESPONSE_ID)
          as [rid|]|]);
    simpl; repeat split;
    rewrite ?lookup_insert_eq; rewrite ?lookup_insert_ne by done;
    rewrite ?lookup_insert_eq; rewrite ?lookup_insert_ne by done;
    rewrite ?lookup_insert_eq; done.
Qed.

Lemma http_attributes_other_keys lower r host p response key :
  key ∉ [_HTTP_REQUEST_METHOD; _URL_FULL; _SERVER_ADDRESS; _SERVER_PORT;
         _USER_AGENT_ORIGINAL; _HTTP_RESPONSE_STATUS_CODE; _ERROR_TYPE] ->
  http_client_span_attributes lower r host p response !! key = None.
Proof.
  intros Hkey. unfold http_client_span_attributes.
  repeat case_match;
    repeat (rewrite lookup_insert_ne by (intros <-; apply Hkey; set_solver));
    apply lookup_singleton_ne; intros <-; apply Hkey; set_solver.
Qed.

Lemma foldl_insert_union (l : list (string * pyobj)) (old : gmap string pyobj) :
  NoDup l.*1 ->
  foldl (fun m kv => <[kv.1 := kv.2]> m) old l = list_to_map l ∪ old.
Proof.
  revert old. induction l as [|[k v] l IH]; intros old Hl; simpl.
  - by rewrite (left_id_L ∅ (∪)).
  - apply NoDup_cons in Hl as [Hk Hl]. rewrite IH by done.
    rewrite <- insert_union_l. rewrite <- insert_union_r; [done|].
    by apply not_elem_of_list_to_map_1.
Qed.

Lemma end_span_attributes_other_keys lower ctx r response key :
  key ∉ [_HTTP_RESEND_COUNT; _REQUEST_ID_ATTR; _RESPONSE_ID_ATTR] ->
  end_span_attributes lower ctx r response !! key = None.
Proof.
  intros Hkey. unfold end_span_attributes.
  repeat case_match;
    repeat (rewrite lookup_insert_ne by (intros <-; apply Hkey; set_solver));
    apply lookup_empty.
Qed.

Lemma end_span_plugin_attribute env response exc_info w ref s key :
  context (request w) !! TRACING_CONTEXT = Some (PSpan ref) ->
  spans w !! ref = Some s ->
  span_is_plugin s = true ->
  span_attribute (end_span env response exc_info w).2 ref key
  = (end_span_attributes (str_lower env) (context (request w))
       (request_http (request w)) response ∪ span_attributes s) !! key.
Proof.
  intros Hctx Hs Hplugin.
  unfold end_span, bind, get. simpl. rewrite Hctx. simpl.
  rewrite Hs. simpl. rewrite Hplugin, add_attributes_run.
  unfold span_attribute.
  destruct exc_info as [info|]; simpl; repeat case_match; simpl;
    rewrite !list_lookup_alter_eq, Hs; simpl;
    by rewrite foldl_insert_union, list_to_map_to_list
      by apply NoDup_fst_map_to_list.
Qed.

Lemma end_span_native_attribute env response exc_info w ref s host p key :
  context (request w) !! TRACING_CONTEXT = Some (PSpan ref) ->
  spans w !! ref = Some s ->
  span_is_plugin s = false ->
  url_parsed env w host p ->
  span_attribute (end_span env response exc_info w).2 ref key
  = ended_attributes env w host p response exc_info (span_attributes s) !! key.
Proof.
  intros Hctx Hs Hnative Hurl.
  destruct (end_span_ends env response exc_info w ref s host p Hctx Hs
              (fun _ => Hurl))
    as (s' & Hs' & _ & _ & _ & _ & _ & Hattrs).
  unfold span_attribute. rewrite Hs'. simpl. by rewrite (Hattrs Hnative).
Qed.

Lemma end_span_other_attribute env response exc_info w ref s host p key :
  context (request w) !! TRACING_CONTEXT = Some (PSpan ref) ->
  spans w !! ref = Some s ->
  (span_is_plugin s = false -> url_parsed env w host p) ->
  key ∉ [_HTTP_REQUEST_METHOD; _URL_FULL; _SERVER_ADDRESS; _SERVER_PORT;
         _USER_AGENT_ORIGINAL; _HTTP_RESPONSE_STATUS_CODE; _ERROR_TYPE] ->
  span_attribute (end_span env response exc_info w).2 ref key
  = (end_span_attributes (str_lower env) (context (request w))
       (request_http (request w)) response ∪ span_attributes s) !! key.
Proof.
  intros Hctx Hs Hurl Hkey.
  destruct (span_is_plugin s) eqn:Hplugin.
  - by apply end_span_plugin_attribute.
  - rewrite (end_span_native_attribute env response exc_info w ref s host p key)
      by (done || by apply Hurl).
    assert ((end_span_attributes (str_lower env) (context (request w))
               (request_http (request w)) response
             ∪ (http_client_span_attributes (str_lower env)
                  (request_http (request w)) host p response
                ∪ span_attributes s)) !! key
            = (end_span_attributes (str_lower env) (context (request w))
                 (request_http (request w)) response
               ∪ span_attributes s) !! key) as Hdrop.
    { rewrite !lookup_union.
      by rewrite (http_attributes_other_keys _ _ host p response key Hkey),
                 (left_id_L None _). }
    unfold ended_attributes. destruct exc_info as [[t|]|]; [|done..].
    rewrite lookup_insert_ne; [done|]. intros <-. apply Hkey. set_solver.
Qed.

(** X19. The correlation attributes [end_span] puts on the span, plugin
    or OpenTelemetry (for the latter when the URL of the request can be
    parsed), with or without an exception: the resend count is the
    [retry_count] of the context when that is true (a count of 0 sets
    nothing), the client request id is the request's
    [x-ms-client-request-id] header, whatever the case of its name, when
    it is not empty, the service request id is the response's
    [x-ms-request-id] header whenever the response has one, empty or
    not.  An attribute that is not set keeps the value the span had. *)
Theorem end_span_correlation_attributes (env : environment)
    (response : option http_response) (exc_info : option (option exc_type))
    (w : world) (ref : nat) (s : span_state)
    (parsed_hostname : option string) (parsed_port : option Z) :
  context (request w) !! TRACING_CONTEXT = Some (PSpan ref) ->
  spans w !! ref = Some s ->
  (span_is_plugin s = false -> url_parsed env w parsed_hostname parsed_port) ->
  let w' := (end_span env response exc_info w).2 in
  span_attribute w' ref _HTTP_RESEND_COUNT
  = match context (request w) !! "retry_count" with
    | Some retry_count =>
        if truthy retry_count then Some retry_count
        else span_attribute w ref _HTTP_RESEND_COUNT
    | None => span_attribute w ref _HTTP_RESEND_COUNT
    end
  /\ span_attribute w' ref _REQUEST_ID_ATTR
     = match header_get (str_lower env) (headers (request_http (request w)))
               _REQUEST_ID with
       | Some id => if String.eqb id "" then span_attribute w ref _REQUEST_ID_ATTR
                    else Some (PStr id)
       | None => span_attribute w ref _REQUEST_ID_ATTR
       end
  /\ span_attribute w' ref _RESPONSE_ID_ATTR
     = match response with
       | Some rsp =>
           match header_get (str_lower env) (response_headers rsp)
                   _RESPONSE_ID with
           | Some id => Some (PStr id)
           | None => span_attribute w ref _RESPONSE_ID_ATTR
           end
       | None => span_attribute w ref _RESPONSE_ID_ATTR
       end.
Proof.
  intros Hctx Hs Hurl w'. subst w'.
  destruct (end_span_attributes_lookup (str_lower env) (context (request w))
              (request_http (request w)) response)
    as (Hcount & Hrequest & Hresponse).
  rewrite !(end_span_other_attribute env response exc_info w ref s
              parsed_hostname parsed_port _ Hctx Hs Hurl)
    by (rewrite !not_elem_of_cons; repeat split; try done;
        apply not_elem_of_nil).
  rewrite !lookup_union, Hcount, Hrequest, Hresponse.
  unfold span_attribute. rewrite Hs. simpl.
  repeat split.
  - destruct (context (request w) !! "retry_count") as [n|]; simpl;
      [destruct (truthy n)|]; simpl; by rewrite ?(left_id_L None _);
      try by destruct (span_attributes s !! _HTTP_RESEND_COUNT).
  - destruct (header_get _ (headers (request_http (request w))) _REQUEST_ID)
      as [id|]; simpl; [destruct (String.eqb id "")|]; simpl;
      by rewrite ?(left_id_L None _);
      try by destruct (span_attributes s !! _REQUEST_ID_ATTR).
  - destruct response as [rsp|]; simpl;
      [destruct (header_get _ (response_headers rsp) _RESPONSE_ID) as [id|]|];
      simpl; by rewrite ?(left_id_L None _);
      try by destruct (span_attributes s !! _RESPONSE_ID_ATTR).
Qed.

Lemma end_span_correlation_attributes_witness :
  span_attribute
    (on_response sample_environment service_response resent_world).2
    0 _HTTP_RESEND_COUNT
  = Some (PInt 2)
  /\ span_attribute
       (on_response sample_environment service_response resent_world).2
       0 _REQUEST_ID_ATTR
     = Some (PStr "client-1")
  /\ span_attribute
       (on_response sample_environment service_response resent_world).2
       0 _RESPONSE_ID_ATTR
     = Some (PStr "service-1").
Proof.
  refine (end_span_correlation_attributes sample_environment
            (Some service_response) None resent_world 0
            (mkSpan "GET" false {[ "custom" := PInt 1 ]} None 0 None)
            (Some "example.org") None _ _ _).
  - by vm_compute.
  - by vm_compute.
  - intros _. eexists. split; [by vm_compute|]. by split.
Defined.

(** X20. [end_span] removes no attribute of the span, and the only
    attributes it writes are the seven HTTP ones and the three
    correlation ones: every other attribute of the span, plugin or
    OpenTelemetry, keeps its value. *)
Theorem end_span_keeps_other_attributes (env : environment)
    (response : option http_response) (exc_info : option (option exc_type))
    (w : world) (ref : nat) (s : span_state) (key : string) :
  context (request w) !! TRACING_CONTEXT = Some (PSpan ref) ->
  spans w !! ref = Some s ->
  let w' := (end_span env response exc_info w).2 in
  (is_Some (span_attribute w ref key) -> is_Some (span_attribute w' ref key))
  /\ (key ∉ [_HTTP_REQUEST_METHOD; _URL_FULL; _SERVER_ADDRESS; _SERVER_PORT;
             _USER_AGENT_ORIGINAL; _HTTP_RESPONSE_STATUS_CODE; _ERROR_TYPE;
             _HTTP_RESEND_COUNT; _REQUEST_ID_ATTR; _RESPONSE_ID_ATTR] ->
      span_attribute w' ref key = span_attribute w ref key).
Proof.
  intros Hctx Hs w'. subst w'.
  assert (span_is_plugin s = false ->
          (exists e, end_span env response exc_info w = (Raises e, w))
          \/ exists host p, url_parsed env w host p) as Hcases.
  { intros Hnative.
    destruct (end_span_native_cases env response exc_info w ref s Hctx Hs
                Hnative) as [Hparsed | Hraises]; [by right | by left]. }
  destruct (span_is_plugin s) eqn:Hplugin.
  - split.
    + unfold span_attribute at 1. rewrite Hs. simpl. intros Hold.
      rewrite (end_span_plugin_attribute env response exc_info w ref s key)
        by done.
      apply lookup_union_is_Some. by right.
    + intros Hkey. rewrite !not_elem_of_cons in Hkey.
      rewrite (end_span_plugin_attribute env response exc_info w ref s key)
        by done.
      rewrite lookup_union, end_span_attributes_other_keys, (left_id_L None _)
        by (rewrite !not_elem_of_cons; tauto).
      unfold span_attribute. by rewrite Hs.
  - destruct (Hcases eq_refl) as [[e ->] | (host & p & Hurl)]; [by split|].
    split.
    + unfold span_attribute at 1. rewrite Hs. simpl. intros Hold.
      rewrite (end_span_native_attribute env response exc_info w ref s host p
                 key) by done.
      assert (is_Some
                ((end_span_attributes (str_lower env) (context (request w))
                    (request_http (request w)) response
                  ∪ (http_client_span_attributes (str_lower env)
                       (request_http (request w)) host p response
                     ∪ span_attributes s)) !! key)) as Hattached.
      { apply lookup_union_is_Some. right.
        apply lookup_union_is_Some. by right. }
      unfold ended_attributes. destruct exc_info as [[t|]|]; [|done..].
      apply lookup_insert_is_Some'. by right.
    + intros Hkey. rewrite !not_elem_of_cons in Hkey.
      rewrite (end_span_other_attribute env response exc_info w ref s host p
                 key) by (done || (rewrite !not_elem_of_cons; tauto)).
      rewrite lookup_union, end_span_attributes_other_keys, (left_id_L None _)
        by (rewrite !not_elem_of_cons; tauto).
      unfold span_attribute. by rewrite Hs.
Qed.

Lemma end_span_keeps_other_attributes_witness :
  span_attribute
    (on_response sample_environment service_response resent_world).2
    0 "custom"
  = Some (PInt 1).
Proof.
  refine (proj2 (end_span_keeps_other_attributes sample_environment
                   (Some service_response) None resent_world 0
                   (mkSpan "GET" false {[ "custom" := PInt 1 ]} None 0 None)
                   "custom" _ _) _);
    [by vm_compute | by vm_compute |].
  rewrite !not_elem_of_cons. repeat split; try done. apply not_elem_of_nil.
Defined.

End TracingEnds.
